(** * Node/selection synchronisation of the organisation-chart editor

    A shallow embedding of the application component [App] (file
    [src/App.tsx]) and of the diagram wrapper it mounts, with the
    properties that the specification states about them.

    - [Js]      the fragment of JavaScript data the code manipulates:
                primitive values, plain objects, sparse arrays and
                completions (normal or thrown);
    - [App]     the component state, the key -> index map and the two
                event handlers [handleDiagramEvent] and
                [handleInputChange];
    - [Diagram] the part of the diagramming engine's state that the
                [SelectionDeleting] listener reads and writes, and the
                listener itself;
    - [Page]    the [Modified] listener of the same wrapper, which keeps
                the star of the page title;
    - [Wrapper] the class wrapper: the picture converter, the functions
                that make keys unique, the double-click handler and the
                drag-and-drop handlers of its node template. *)

From stdpp Require Import gmap strings list fin_maps pretty.
From Stdlib Require Import ZArith Ascii.

Open Scope string_scope.
Open Scope list_scope.

(* ===================================================================== *)
(** * JavaScript data *)
(* ===================================================================== *)

Module Js.

(** Primitive values stored in data records and used as keys
    ([go.Key = string | number | undefined]).  The numbers that occur
    in keys and [parent] fields are integer literals, so [Z] stands
    for them; two primitives are the same [Map] key exactly when they
    are the same constructor applied to the same payload
    (SameValueZero never identifies the number [3] and the string
    ["3"]). *)
Inductive value : Type :=
| VUndefined
| VBool (b : bool)
| VNum (z : Z)
| VStr (s : string).

#[global] Instance value_eq_dec : EqDecision value.
Proof. solve_decision. Defined.

Definition value_to_sum (v : value) : unit + bool + Z + string :=
  match v with
  | VUndefined => inl (inl (inl tt))
  | VBool b => inl (inl (inr b))
  | VNum z => inl (inr z)
  | VStr s => inr s
  end.

Definition value_of_sum (x : unit + bool + Z + string) : value :=
  match x with
  | inl (inl (inl _)) => VUndefined
  | inl (inl (inr b)) => VBool b
  | inl (inr z) => VNum z
  | inr s => VStr s
  end.

#[global] Instance value_countable : Countable value.
Proof.
  apply (inj_countable' value_to_sum value_of_sum).
  intros []; reflexivity.
Defined.

(** [go.ObjectData]: a plain object, i.e. a finite map from property
    names to values.  Every property name is treated as an ordinary
    own data property. *)
Abbreviation ObjectData := (gmap string value).

(** [o[p]] (and [o.p]): reading a missing property yields [undefined]. *)
Definition get_prop (o : ObjectData) (p : string) : value :=
  default VUndefined (o !! p).

(** [o[p] = v]. *)
Definition set_prop (o : ObjectData) (p : string) (v : value) : ObjectData :=
  <[p := v]> o.

(** An object literal, from its [property: value] pairs. *)
Definition object (props : list (string * value)) : ObjectData :=
  list_to_map props.

(** Arrays.  A JavaScript array may have empty slots (it acquires them
    when an index beyond its length is assigned); an empty slot reads
    as [undefined] and is skipped by [forEach]. *)
Abbreviation Array A := (list (option A)).

(** [arr[i]]: [None] stands for [undefined] (an empty slot or an index
    outside the array). *)
Definition array_get {A} (arr : Array A) (i : nat) : option A :=
  mjoin (arr !! i).

(** [arr[i] = x]: in range the slot is overwritten; beyond the end the
    array grows to length [i + 1], the slots in between staying empty. *)
Definition array_set {A} (arr : Array A) (i : nat) (x : A) : Array A :=
  if decide (i < length arr) then <[i := Some x]> arr
  else arr ++ replicate (i - length arr) None ++ [Some x].

(** An array literal. *)
Definition array_of {A} (l : list A) : Array A := Some <$> l.

(** [arr.forEach((n, idx) => ...)] as a fold over the state [St] that the
    callback updates; [idx] is the index of the first slot of [arr]. *)
Fixpoint forEach_from {A St} (f : A -> nat -> St -> St)
    (idx : nat) (arr : Array A) (s : St) : St :=
  match arr with
  | [] => s
  | None :: rest => forEach_from f (S idx) rest s
  | Some n :: rest => forEach_from f (S idx) rest (f n idx s)
  end.

Definition forEach {A St} (f : A -> nat -> St -> St) (arr : Array A) (s : St) : St :=
  forEach_from f 0 arr s.

(** A variable of type [go.ObjectData | null].  At run time such a
    variable can also hold [undefined], which is what reading an array
    index that holds no record produces. *)
Inductive ref : Type :=
| Null
| Undefined
| Obj (d : ObjectData).

Definition ref_of (o : option ObjectData) : ref :=
  match o with
  | Some d => Obj d
  | None => Undefined
  end.

(** How a piece of code ends: normally with a result, or by throwing.
    The only exception the modelled code can raise is the [TypeError]
    of a property access on [null] or [undefined]. *)
Inductive error : Type := TypeError.

Inductive completion (A : Type) : Type :=
| Normal (a : A)
| Throw (e : error).
Arguments Normal {A} a.
Arguments Throw {A} e.

End Js.

Import Js.

(* ===================================================================== *)
(** * The application component ([src/App.tsx]) *)
(* ===================================================================== *)

Module App.

(** What a handler can observe of a selected diagram part: whether it is
    a [go.Node] (then [sel.key] is the key of its data), a [go.Link], or
    some other [go.Part]. *)
Inductive Part : Type :=
| Node (key : value)
| Link
| OtherPart.

(** [go.DiagramEvent]: its [name] and its [subject], here the
    diagram's selection in iteration order. *)
Record DiagramEvent : Type := {
  name : string;
  subject : list Part
}.

(** [e.subject.first()]: the first part of the collection, or [null]. *)
Definition first (coll : list Part) : option Part := head coll.

(** [interface AppState]. *)
Record AppState : Type := {
  nodeDataArray : Array ObjectData;
  modelData : ObjectData;
  selectedData : ref;
  skipsDiagramUpdate : bool
}.

(** The component instance: its React state and the private field
    [mapNodeKeyIdx : Map<go.Key, number>]. *)
Record App : Type := {
  state : AppState;
  mapNodeKeyIdx : gmap value nat
}.

(** [Map.prototype.clear]. *)
Definition Map_clear (m : gmap value nat) : gmap value nat := ∅.

(** [refreshNodeIndex]: clear the map, then record for every element of
    [nodeArr] its index under its key, in array order (a later element
    with the same key replaces the earlier entry). *)
Definition refreshNodeIndex (this : App) (nodeArr : Array ObjectData) : App :=
  let m := Map_clear (mapNodeKeyIdx this) in
  {| state := state this;
     mapNodeKeyIdx :=
       forEach (fun (n : ObjectData) (idx : nat) (m : gmap value nat) =>
                  <[get_prop n "key" := idx]> m) nodeArr m |}.

(** The state literal of the constructor. *)
Definition initial_nodeDataArray : Array ObjectData := array_of [
  object [("key", VNum 1); ("name", VStr "Stella Payne Diaz"); ("title", VStr "CEO")];
  object [("key", VNum 2); ("name", VStr "Luke Warm"); ("title", VStr "VP Marketing/Sales"); ("parent", VNum 1)];
  object [("key", VNum 3); ("name", VStr "Meg Meehan Hoffa"); ("title", VStr "Sales"); ("parent", VNum 2)];
  object [("key", VNum 4); ("name", VStr "Peggy Flaming"); ("title", VStr "VP Engineering"); ("parent", VNum 1)];
  object [("key", VNum 5); ("name", VStr "Saul Wellingood"); ("title", VStr "Manufacturing"); ("parent", VNum 4)];
  object [("key", VNum 6); ("name", VStr "Al Ligori"); ("title", VStr "Marketing"); ("parent", VNum 2)];
  object [("key", VNum 7); ("name", VStr "Dot Stubadd"); ("title", VStr "Sales Rep"); ("parent", VNum 3)];
  object [("key", VNum 8); ("name", VStr "Les Ismore"); ("title", VStr "Project Mgr"); ("parent", VNum 5)];
  object [("key", VNum 9); ("name", VStr "April Lynn Parris"); ("title", VStr "Events Mgr"); ("parent", VNum 6)];
  object [("key", VNum 10); ("name", VStr "Xavier Breath"); ("title", VStr "Engineering"); ("parent", VNum 4)];
  object [("key", VNum 11); ("name", VStr "Anita Hammer"); ("title", VStr "Process"); ("parent", VNum 5)];
  object [("key", VNum 12); ("name", VStr "Billy Aiken"); ("title", VStr "Software"); ("parent", VNum 10)];
  object [("key", VNum 13); ("name", VStr "Stan Wellback"); ("title", VStr "Testing"); ("parent", VNum 10)];
  object [("key", VNum 14); ("name", VStr "Marge Innovera"); ("title", VStr "Hardware"); ("parent", VNum 10)];
  object [("key", VNum 15); ("name", VStr "Evan Elpus"); ("title", VStr "Quality"); ("parent", VNum 5)];
  object [("key", VNum 16); ("name", VStr "Lotta B. Essen"); ("title", VStr "Sales Rep"); ("parent", VNum 3)];
  object [("key", VNum 17); ("name", VStr "Joaquin Closet"); ("title", VStr "Wardrobe Assistant"); ("parent", VNum 1)];
  object [("key", VNum 18); ("name", VStr "Hannah Twomey"); ("title", VStr "Engineering Assistant"); ("parent", VNum 10); ("isAssistant", VBool true)]
].

(** The constructor body for an arbitrary initial collection: set the
    state, create an empty map, index the collection. *)
Definition construct (nodes : Array ObjectData) : App :=
  let this :=
    {| state := {| nodeDataArray := nodes;
                   modelData := object [("canRelink", VBool false)];
                   selectedData := Null;
                   skipsDiagramUpdate := false |};
       mapNodeKeyIdx := ∅ |} in
  refreshNodeIndex this (nodeDataArray (state this)).

(** [constructor]. *)
Definition constructor : App := construct initial_nodeDataArray.

(** [produce(recipe)] applied to the previous state.  The recipe works
    on a draft of the state; the base state is never written.  A draft
    object is created for each access path of the state tree
    ([draft.selectedData] and [draft.nodeDataArray[idx]] get drafts of
    their own even when both paths lead to one and the same record), a
    write through a draft lands in a private copy made for that path,
    and the next state holds the copies in place of the objects that
    were written.  Records therefore behave as values: writing the
    record reached through one path leaves the record reached through
    any other path untouched, and the state is modelled by value.  A
    recipe that throws produces no next state. *)
Definition produce (recipe : AppState -> completion AppState)
    (base : AppState) : completion AppState :=
  recipe base.

(** [this.setState(updater)]: the next state is the updater's result on
    the current one; the map is a field of the instance, outside the
    state. *)
Definition setState (this : App)
    (updater : AppState -> completion AppState) : completion App :=
  match updater (state this) with
  | Normal s => Normal {| state := s; mapNodeKeyIdx := mapNodeKeyIdx this |}
  | Throw e => Throw e
  end.

(** [draft.selectedData = r]. *)
Definition set_selectedData (draft : AppState) (r : ref) : AppState :=
  {| nodeDataArray := nodeDataArray draft;
     modelData := modelData draft;
     selectedData := r;
     skipsDiagramUpdate := skipsDiagramUpdate draft |}.

(** [draft.nodeDataArray[idx] = data]. *)
Definition set_nodeData (draft : AppState) (idx : nat) (data : ObjectData) : AppState :=
  {| nodeDataArray := array_set (nodeDataArray draft) idx data;
     modelData := modelData draft;
     selectedData := selectedData draft;
     skipsDiagramUpdate := skipsDiagramUpdate draft |}.

(** [draft.skipsDiagramUpdate = b]. *)
Definition set_skipsDiagramUpdate (draft : AppState) (b : bool) : AppState :=
  {| nodeDataArray := nodeDataArray draft;
     modelData := modelData draft;
     selectedData := selectedData draft;
     skipsDiagramUpdate := b |}.

(** [handleDiagramEvent]. *)
Definition handleDiagramEvent (this : App) (e : DiagramEvent) : completion App :=
  if decide (name e = "ChangedSelection") then
    let sel := first (subject e) in
    setState this (produce (fun draft =>
      match sel with
      | Some (Node key) =>                      (* sel instanceof go.Node *)
          match mapNodeKeyIdx this !! key with
          | Some idx =>
              if (0 <=? idx)%nat then
                let nd := array_get (nodeDataArray draft) idx in
                Normal (set_selectedData draft (ref_of nd))
              else Normal draft
          | None => Normal draft                (* idx === undefined *)
          end
      | Some _ => Normal draft                  (* a part that is no node *)
      | None => Normal (set_selectedData draft Null)
      end))
  else Normal this.

(** [handleInputChange].  [data] is the draft of [draft.selectedData]:
    the assignment [data[path] = value] throws when it is [null] (or
    [undefined]), and otherwise updates the record that
    [draft.selectedData] holds. *)
Definition handleInputChange (this : App)
    (path : string) (value : string) (isBlur : bool) : completion App :=
  setState this (produce (fun draft =>
    match selectedData draft with
    | Obj data =>
        let data := set_prop data path (VStr value) in
        let draft := set_selectedData draft (Obj data) in
        if isBlur then
          let key := get_prop data "key" in
          match mapNodeKeyIdx this !! key with
          | Some idx =>
              if (0 <=? idx)%nat then
                Normal (set_skipsDiagramUpdate (set_nodeData draft idx data) false)
              else Normal draft
          | None => Normal draft
          end
        else Normal draft
    | Null | Undefined => Throw TypeError
    end)).

(** What [render] mounts: the diagram wrapper with its props, and the
    inspector only when [selectedData !== null].  The inspector is the
    component that is handed [handleInputChange]. *)
Record Rendered : Type := {
  diagram_nodeDataArray : Array ObjectData;
  diagram_modelData : ObjectData;
  diagram_skipsDiagramUpdate : bool;
  inspector : option ref
}.

Definition render (this : App) : Rendered :=
  let selectedData := selectedData (state this) in
  {| diagram_nodeDataArray := nodeDataArray (state this);
     diagram_modelData := modelData (state this);
     diagram_skipsDiagramUpdate := skipsDiagramUpdate (state this);
     inspector := match selectedData with
                  | Null => None
                  | r => Some r
                  end |}.

(** The components that an application started on the collection
    [nodes] can be: the constructed one, and every one that a handler
    call leaves behind.  The running application is the case
    [nodes = initial_nodeDataArray]. *)
Inductive reachable (nodes : Array ObjectData) : App -> Prop :=
| reachable_construct : reachable nodes (construct nodes)
| reachable_diagram_event this e this' :
    reachable nodes this ->
    handleDiagramEvent this e = Normal this' ->
    reachable nodes this'
| reachable_input_change this path value isBlur this' :
    reachable nodes this ->
    handleInputChange this path value isBlur = Normal this' ->
    reachable nodes this'.

(** [indexFor(key)] of the specification. *)
Definition indexFor (this : App) (key : value) : option nat :=
  mapNodeKeyIdx this !! key.

(** Every entry of the map points at a record of the collection that
    carries the entry's key. *)
Definition index_valid (this : App) : Prop :=
  forall k idx, indexFor this k = Some idx ->
    exists nd, array_get (nodeDataArray (state this)) idx = Some nd /\
               get_prop nd "key" = k.

(** No two records of a collection carry the same key. *)
Definition distinct_keys (arr : Array ObjectData) : Prop :=
  forall i j ni nj,
    array_get arr i = Some ni -> array_get arr j = Some nj ->
    get_prop ni "key" = get_prop nj "key" -> i = j.

(** The callback of [refreshNodeIndex]. *)
Definition set_key (n : ObjectData) (idx : nat) (m : gmap value nat) :
    gmap value nat :=
  <[get_prop n "key" := idx]> m.

(** The scenario of the specification: a store of two records. *)
Definition scenario_nodes : Array ObjectData := array_of [
  object [("key", VNum 1); ("name", VStr "A")];
  object [("key", VNum 2); ("name", VStr "B"); ("parent", VNum 1)]
].

(** A component whose map holds a key of an earlier collection. *)
Definition stale_app : App :=
  refreshNodeIndex (construct []) (array_of [object [("key", VNum 9)]]).

(** Every record's key has an entry in the map. *)
Definition index_complete (this : App) : Prop :=
  forall p nd, array_get (nodeDataArray (state this)) p = Some nd ->
    is_Some (indexFor this (get_prop nd "key")).

(** The store invariant. *)
Definition store_ok (this : App) : Prop :=
  index_valid this /\ index_complete this.

(** The running application after the node with key 3 was selected. *)
Definition select_3 : DiagramEvent :=
  {| name := "ChangedSelection"; subject := [Node (VNum 3)] |}.

Definition meg : ObjectData :=
  object [("key", VNum 3); ("name", VStr "Meg Meehan Hoffa");
          ("title", VStr "Sales"); ("parent", VNum 2)].

Definition selected_3 : App :=
  {| state := set_selectedData (state constructor) (Obj meg);
     mapNodeKeyIdx := mapNodeKeyIdx constructor |}.

(** A working copy whose key was edited to the string ["99"]. *)
Definition renamed_3 : App :=
  {| state := set_selectedData (state constructor)
                (Obj (set_prop meg "key" (VStr "99")));
     mapNodeKeyIdx := mapNodeKeyIdx constructor |}.

(** The key of the record in a slot, if the slot holds one. *)
Definition slot_key (arr : Array ObjectData) (p : nat) : option value :=
  (fun nd => get_prop nd "key") <$> array_get arr p.

(** No record of the collection has a string for its key. *)
Definition no_string_keys (arr : Array ObjectData) : Prop :=
  forall p nd s, array_get arr p = Some nd -> get_prop nd "key" <> VStr s.

(** A run of inspector edits, each a call
    [handleInputChange(path, value, isBlur)], in order; the run stops at
    the first call that throws. *)
Fixpoint run_edits (this : App) (edits : list (string * string * bool)) :
    completion App :=
  match edits with
  | [] => Normal this
  | (path, value, isBlur) :: rest =>
      match handleInputChange this path value isBlur with
      | Normal this' => run_edits this' rest
      | Throw e => Throw e
      end
  end.

(** The store of the scenario with the record of key 2 selected. *)
Definition scenario_2 : App :=
  {| state := set_selectedData (state (construct scenario_nodes))
                (Obj (object [("key", VNum 2); ("name", VStr "B"); ("parent", VNum 1)]));
     mapNodeKeyIdx := mapNodeKeyIdx (construct scenario_nodes) |}.

(** A store whose keys are strings. *)
Definition lettered_nodes : Array ObjectData := array_of [
  object [("key", VStr "a"); ("name", VStr "Ann")];
  object [("key", VStr "b"); ("name", VStr "Bob")]
].

(** The store of [lettered_nodes] with the record of key ["a"]
    selected. *)
Definition lettered_a : App :=
  {| state := set_selectedData (state (construct lettered_nodes))
                (Obj (object [("key", VStr "a"); ("name", VStr "Ann")]));
     mapNodeKeyIdx := mapNodeKeyIdx (construct lettered_nodes) |}.

(** A collection in which two records share the key 7. *)
Definition twin_nodes : Array ObjectData := array_of [
  object [("key", VNum 7); ("name", VStr "first")];
  object [("key", VNum 8)];
  object [("key", VNum 7); ("name", VStr "second")]
].

End App.

(* ===================================================================== *)
(** * The diagram wrapper: the [SelectionDeleting] listener *)
(* ===================================================================== *)

Module Diagram.

(** The wrapper that [App] mounts registers a listener for the
    diagram's ["SelectionDeleting"] event.  The diagram itself belongs
    to the diagramming engine; what follows is the part of its state
    that the listener goes through: the nodes with their data records,
    the named objects of their visual trees and their tree children,
    and the transactions. *)

(** A named [go.GraphObject] of a node's visual tree, with the text it
    displays (the [text] of a [go.TextBlock]). *)
Record GraphObject : Type := {
  obj_name : string;
  obj_text : string
}.

(** A [go.Node] of the diagram: the data record it is bound to, the
    named objects of its visual tree in the order in which [findObject]
    searches them, and the nodes that [findTreeChildrenNodes] iterates
    over, in iteration order.  Nodes are referred to by their position
    in the diagram's collection of nodes. *)
Record Node : Type := {
  data : ObjectData;
  objects : list GraphObject;
  treeChildren : list nat
}.

(** A [go.Link], of which the listener reads [toNode] (a node or
    [null]). *)
Record Link : Type := {
  toNode : option nat
}.

(** A selected [go.Part]. *)
Inductive Part : Type :=
| NodePart (h : nat)
| LinkPart (l : Link)
| OtherPart.

(** The state of the diagram that the listener reads or writes: its
    nodes, the names of the transactions that were started and not yet
    committed (innermost first), and the names of the transactions that
    were committed (oldest first). *)
Record Diagram : Type := {
  nodes : list Node;
  openTransactions : list string;
  committed : list string
}.

(** [myDiagram.startTransaction(tname)]. *)
Definition startTransaction (tname : string) (d : Diagram) : Diagram :=
  {| nodes := nodes d;
     openTransactions := tname :: openTransactions d;
     committed := committed d |}.

(** [myDiagram.commitTransaction(tname)]: ends the innermost open
    transaction; nothing happens when none is open. *)
Definition commitTransaction (tname : string) (d : Diagram) : Diagram :=
  match openTransactions d with
  | [] => d
  | _ :: outer =>
      {| nodes := nodes d;
         openTransactions := outer;
         committed := committed d ++ [tname] |}
  end.

(** Search of a visual tree for the first object with a given name. *)
Fixpoint find_named (oname : string) (objs : list GraphObject) : option GraphObject :=
  match objs with
  | [] => None
  | o :: rest => if decide (obj_name o = oname) then Some o else find_named oname rest
  end.

(** [child.findObject(oname)]: the object, or [null]. *)
Definition findObject (d : Diagram) (child : nat) (oname : string) : option GraphObject :=
  n ← nodes d !! child; find_named oname (objects n).

(** Assignment of [text] to the object that [find_named] returns. *)
Fixpoint set_named_text (oname : string) (txt : string) (objs : list GraphObject) :
    list GraphObject :=
  match objs with
  | [] => []
  | o :: rest =>
      if decide (obj_name o = oname)
      then {| obj_name := obj_name o; obj_text := txt |} :: rest
      else o :: set_named_text oname txt rest
  end.

(** [bossText.text = txt], where [bossText] is
    [child.findObject(oname)].  Only the visual object is written: the
    node's data record is another object. *)
Definition set_text (d : Diagram) (child : nat) (oname txt : string) : Diagram :=
  {| nodes :=
       match nodes d !! child with
       | Some n =>
           <[child := {| data := data n;
                         objects := set_named_text oname txt (objects n);
                         treeChildren := treeChildren n |}]> (nodes d)
       | None => nodes d
       end;
     openTransactions := openTransactions d;
     committed := committed d |}.

(** [part.findTreeChildrenNodes()]. *)
Definition findTreeChildrenNodes (d : Diagram) (h : nat) : list nat :=
  match nodes d !! h with
  | Some n => treeChildren n
  | None => []
  end.

(** How the [while (it.next())] loop of the listener ends: by running
    out of children, or by the [return] in its body, which leaves the
    listener. *)
Inductive loop_end : Type :=
| Exhausted (d : Diagram)
| Returned (d : Diagram).

(** The loop over the children of the deleted node. *)
Fixpoint clear_children (it : list nat) (d : Diagram) : loop_end :=
  match it with
  | [] => Exhausted d
  | child :: it' =>
      match findObject d child "boss" with
      | None => Returned d                       (* bossText === null *)
      | Some _ => clear_children it' (set_text d child "boss" "")
      end
  end.

(** The listener registered for ["SelectionDeleting"]; [subject] is
    [e.subject], the selection. *)
Definition SelectionDeleting (subject : list Part) (d : Diagram) : completion Diagram :=
  let part := head subject in
  let d := startTransaction "clear boss" d in
  match part with
  | Some (NodePart h) =>
      match clear_children (findTreeChildrenNodes d h) d with
      | Returned d => Normal d
      | Exhausted d => Normal (commitTransaction "clear boss" d)
      end
  | Some (LinkPart l) =>
      match toNode l with
      | None => Throw TypeError                  (* child is null *)
      | Some child =>
          match findObject d child "boss" with
          | None => Normal d
          | Some _ =>
              Normal (commitTransaction "clear boss"
                        (set_text d child "boss" ""))
          end
      end
  | _ => Normal (commitTransaction "clear boss" d)
  end.

(** The named objects of [myDiagram.nodeTemplate] as [initDiagram] of
    this wrapper defines it: the shape and the two pictures. *)
Definition nodeTemplate : list GraphObject := [
  {| obj_name := "SHAPE"; obj_text := "" |};
  {| obj_name := "Picture"; obj_text := "" |};
  {| obj_name := "Picture"; obj_text := "" |}
].

(** A node made from the node template. *)
Definition template_node (d : ObjectData) (children : list nat) : Node :=
  {| data := d; objects := nodeTemplate; treeChildren := children |}.

(** The child has an object named ["boss"]. *)
Definition has_boss (d : Diagram) (c : nat) : Prop :=
  is_Some (findObject d c "boss").

(** The child's object named ["boss"] displays the empty text. *)
Definition boss_cleared (d : Diagram) (c : nat) : Prop :=
  exists b, findObject d c "boss" = Some b /\ obj_text b = "".

(** What the loop has done when it ends, either way: the visited
    children that had the object display the empty text, no other node
    was written, no data record was written, and the transactions are
    as they were. *)
Definition loop_frame (visited : list nat) (d d' : Diagram) : Prop :=
  (forall c, c ∈ visited -> boss_cleared d' c) /\
  (forall h, h ∉ visited -> nodes d' !! h = nodes d !! h) /\
  (forall h n, nodes d !! h = Some n ->
     exists n', nodes d' !! h = Some n' /\ data n' = data n /\
                treeChildren n' = treeChildren n) /\
  openTransactions d' = openTransactions d /\
  committed d' = committed d.

(** A diagram in which the node at position 0 has two children: the
    node at position 1, made from the node template of this wrapper,
    and the node at position 2, whose visual tree has a text block
    named ["boss"] showing its parent. *)
Definition mixed_diagram : Diagram :=
  {| nodes := [
       template_node (object [("key", VNum 2); ("name", VStr "Luke Warm")]) [1; 2];
       template_node (object [("key", VNum 5); ("parent", VNum 2)]) [];
       {| data := object [("key", VNum 6); ("parent", VNum 2)];
          objects := [ {| obj_name := "SHAPE"; obj_text := "" |};
                       {| obj_name := "boss"; obj_text := "Boss: 2" |} ];
          treeChildren := [] |} ];
     openTransactions := [];
     committed := [] |}.

(** The same tree with the ["boss"] text block in both children. *)
Definition boss_diagram : Diagram :=
  {| nodes := [
       template_node (object [("key", VNum 2); ("name", VStr "Luke Warm")]) [1; 2];
       {| data := object [("key", VNum 5); ("parent", VNum 2)];
          objects := [ {| obj_name := "boss"; obj_text := "Boss: 2" |} ];
          treeChildren := [] |};
       {| data := object [("key", VNum 6); ("parent", VNum 2)];
          objects := [ {| obj_name := "SHAPE"; obj_text := "" |};
                       {| obj_name := "boss"; obj_text := "Boss: 2" |} ];
          treeChildren := [] |} ];
     openTransactions := [];
     committed := [] |}.

(** What the listener may do to a node: nothing to its data record and
    its children, and to an object of its visual tree only the clearing
    of the text, which it does only to an object named ["boss"]. *)
Definition same_but_boss_text (n n' : Node) : Prop :=
  data n' = data n /\
  treeChildren n' = treeChildren n /\
  Forall2 (fun o o' =>
             obj_name o' = obj_name o /\
             (obj_text o' = obj_text o \/
              (obj_name o = "boss" /\ obj_text o' = "")))
          (objects n) (objects n').

(** The same, node by node, for the whole diagram. *)
Definition only_boss_texts (d d' : Diagram) : Prop :=
  Forall2 same_but_boss_text (nodes d) (nodes d').

(** A diagram whose nodes are all made from the node template of this
    wrapper: the node of key 2 with its two children. *)
Definition template_diagram : Diagram :=
  {| nodes := [
       template_node (object [("key", VNum 2); ("name", VStr "Luke Warm")]) [1; 2];
       template_node (object [("key", VNum 5); ("parent", VNum 2)]) [];
       template_node (object [("key", VNum 6); ("parent", VNum 2)]) [] ];
     openTransactions := [];
     committed := [] |}.

End Diagram.

(* ===================================================================== *)
(** * The diagram wrapper: the [Modified] listener *)
(* ===================================================================== *)

Module Page.

(** What the listener reads and writes of the page, an HTML document
    with a [title] element in its head: the text of that element, and
    the [disabled] flag of the element with id ["SaveButton"] when the
    page has one. *)
Record Document : Type := {
  title : string;
  SaveButton : option bool
}.

(** ASCII whitespace as the HTML standard has it: TAB, LF, FF, CR and
    SPACE. *)
Definition is_ascii_whitespace (c : Ascii.ascii) : bool :=
  (Ascii.eqb c "009" || Ascii.eqb c "010" || Ascii.eqb c "012" ||
   Ascii.eqb c "013" || Ascii.eqb c " ")%char.

(** Where a scan of a string for whitespace stands: before the first
    word, inside a word, or after whitespace that follows a word. *)
Inductive scan : Type := AtStart | InWord | AfterSpace.

(** Every run of whitespace between two words becomes one space;
    whitespace before the first word and after the last is dropped. *)
Fixpoint collapse_from (st : scan) (s : string) : string :=
  match s with
  | EmptyString => EmptyString
  | String a rest =>
      if is_ascii_whitespace a then
        collapse_from (match st with AtStart => AtStart | _ => AfterSpace end) rest
      else
        match st with
        | AfterSpace => String " " (String a (collapse_from InWord rest))
        | _ => String a (collapse_from InWord rest)
        end
  end.

(** Strip and collapse ASCII whitespace. *)
Definition strip_and_collapse (s : string) : string := collapse_from AtStart s.

(** Reading [document.title]: the text of the [title] element with its
    whitespace stripped and collapsed.  What is read can differ from
    what was assigned. *)
Definition document_title (doc : Document) : string :=
  strip_and_collapse (title doc).

(** [s.indexOf(c)] for a pattern [c] of one character: the position of
    the first occurrence, or [-1]. *)
Fixpoint indexOf (c : Ascii.ascii) (s : string) : Z :=
  match s with
  | EmptyString => -1
  | String a rest =>
      if decide (a = c) then 0
      else let i := indexOf c rest in
           if (i <? 0)%Z then -1 else (i + 1)%Z
  end.

(** [s.substr(start, len)]. *)
Definition substr (s : string) (start len : nat) : string :=
  String.substring start len s.

(** Assigning [document.title]: the text of the [title] element becomes
    the string given. *)
Definition set_title (doc : Document) (t : string) : Document :=
  {| title := t; SaveButton := SaveButton doc |}.

(** The listener registered for ["Modified"]; [isModified] is
    [myDiagram.isModified].  Every [document.title] on the right of an
    assignment, in [indexOf], [+=] and [substr], reads the title; the
    assignment stores the string as it is. *)
Definition Modified (isModified : bool) (doc : Document) : Document :=
  let doc :=
    match SaveButton doc with
    | Some _ => {| title := title doc; SaveButton := Some (negb isModified) |}
    | None => doc                                  (* no such element *)
    end in
  let idx := indexOf "*"%char (document_title doc) in
  if isModified then
    if (idx <? 0)%Z then set_title doc (document_title doc +:+ "*") else doc
  else
    if (0 <=? idx)%Z
    then set_title doc (substr (document_title doc) 0 (Z.to_nat idx))
    else doc.

End Page.

(* ===================================================================== *)
(** * The class wrapper: keys, pictures and new employees *)
(* ===================================================================== *)

Module Wrapper.

(** The other wrapper of the repository, the class [DiagramWrapper],
    configures a [go.GraphLinksModel] with functions that make the keys
    of added node and link data unique, and a node template with a
    picture chosen by key and a double-click handler that adds an
    employee. *)

(** [findHeadShot(key)], the converter of the picture's [source]
    binding, for a key that is an integer; [pretty] is the decimal
    numeral that ["images/HS" + key] appends. *)
Definition findHeadShot (key : Z) : string :=
  if decide (key < 0 \/ key > 16)%Z then "images/HSnopic.jpg"
  else ("images/HS" +:+ pretty key) +:+ ".jpg".

(** The data of a [go.GraphLinksModel]. *)
Record Model : Type := {
  nodeDataArray : list ObjectData;
  linkDataArray : list ObjectData
}.

(** Lookup of a data object by its key in an array of data: the object,
    or [null]; [undefined] is no key. *)
Definition find_key (arr : list ObjectData) (key : value) : option ObjectData :=
  if decide (key = VUndefined) then None
  else find (fun d => bool_decide (get_prop d "key" = key)) arr.

(** [m.findNodeDataForKey(key)] and [m.findLinkDataForKey(key)] (the
    model is configured with [linkKeyProperty: 'key']). *)
Definition findNodeDataForKey (m : Model) (key : value) : option ObjectData :=
  find_key (nodeDataArray m) key.

Definition findLinkDataForKey (m : Model) (key : value) : option ObjectData :=
  find_key (linkDataArray m) key.

(** Whether a value counts as true in a condition. *)
Definition truthy (v : value) : bool :=
  match v with
  | VUndefined => false
  | VBool b => b
  | VNum z => negb (z =? 0)%Z
  | VStr s => negb (bool_decide (s = ""))
  end.

(** [v || dflt]. *)
Definition or_else (v dflt : value) : value :=
  if truthy v then v else dflt.

(** The integers that a number holds exactly together with their
    neighbours: up to [2^53] in size.  Between [- max_exact] and
    [max_exact] the sum of a number and 1 or -1 is the sum of the
    integers; at [max_exact], [k++] leaves [k] as it is, and at
    [- max_exact] so does [k--]. *)
Definition max_exact : Z := 9007199254740992.

(** The loop [while (find(k)) k += step], for [step] 1 ([k++]) or -1
    ([k--]), run for at most [fuel] rounds.  The result is [None] when
    the rounds are used up, and when [k] is not a number: what [++] and
    [--] make of other values is outside this model.  A number is an
    integer here and a step is the sum of integers, which is what [k++]
    and [k--] compute as long as [k] stays between [- max_exact] and
    [max_exact]; what the loop does once [k] leaves that range is
    outside this model too, and the statements about the loop say where
    [k] stays. *)
Fixpoint probe (step : Z) (arr : list ObjectData) (fuel : nat) (k : value) :
    option value :=
  match find_key arr k with
  | None => Some k
  | Some _ =>
      match fuel, k with
      | S fuel', VNum z => probe step arr fuel' (VNum (z + step))
      | _, _ => None
      end
  end.

(** [makeUniqueKeyFunction(m, data)]: the key it returns, and [data]
    after [data.key = k].  Every round of the loop finds another data
    object of the array, so the length of the array bounds the rounds. *)
Definition makeUniqueKeyFunction (m : Model) (data : ObjectData) :
    option (value * ObjectData) :=
  let k := or_else (get_prop data "key") (VNum 1) in
  k' ← probe 1 (nodeDataArray m) (length (nodeDataArray m)) k;
  Some (k', set_prop data "key" k').

(** [makeUniqueLinkKeyFunction(m, data)]. *)
Definition makeUniqueLinkKeyFunction (m : Model) (data : ObjectData) :
    option (value * ObjectData) :=
  let k := or_else (get_prop data "key") (VNum (-1)) in
  k' ← probe (-1) (linkDataArray m) (length (linkDataArray m)) k;
  Some (k', set_prop data "key" k').

(** The first key the loop tries when [data.key] is a number or a value
    that counts as false. *)
Definition first_try (data : ObjectData) (dflt : Z) : option Z :=
  match get_prop data "key" with
  | VNum z => Some (if (z =? 0)%Z then dflt else z)
  | VUndefined | VBool false | VStr "" => Some dflt
  | _ => None
  end.

(** The data object is ahead of the key [z] in the direction of
    [step]. *)
Definition key_beyond (step z : Z) (d : ObjectData) : bool :=
  match get_prop d "key" with
  | VNum z' => (0 <=? step * (z' - z))%Z
  | _ => false
  end.

Definition count_beyond (step z : Z) (arr : list ObjectData) : nat :=
  length (filter (fun d => Is_true (key_beyond step z d)) arr).

(** The diagram as the handlers of this wrapper use it: its model and
    its transactions (the names of the open ones, innermost first, and
    of the committed ones, oldest first). *)
Record Diagram : Type := {
  model : Model;
  openTransactions : list string;
  committed : list string
}.

(** [diagram.startTransaction(tname)]. *)
Definition startTransaction (tname : string) (d : Diagram) : Diagram :=
  {| model := model d;
     openTransactions := tname :: openTransactions d;
     committed := committed d |}.

(** [diagram.commitTransaction(tname)]. *)
Definition commitTransaction (tname : string) (d : Diagram) : Diagram :=
  match openTransactions d with
  | [] => d
  | _ :: outer =>
      {| model := model d;
         openTransactions := outer;
         committed := committed d ++ [tname] |}
  end.

(** [diagram.model.addNodeData(nodedata)], the engine's method: when the
    key of the data is [undefined] or already in use, the model has
    [makeUniqueKeyFunction] assign one; the data then joins the node
    data of the model. *)
Definition addNodeData (m : Model) (nodedata : ObjectData) : option Model :=
  let key := get_prop nodedata "key" in
  nodedata' ←
    (if decide (key = VUndefined \/ is_Some (findNodeDataForKey m key))
     then snd <$> makeUniqueKeyFunction m nodedata
     else Some nodedata);
  Some {| nodeDataArray := nodeDataArray m ++ [nodedata'];
          linkDataArray := linkDataArray m |}.

(** [nodeDoubleClick(e, obj)], the [doubleClick] handler of the node
    template.  [clicked] is [obj.part], [null] or a node, which the
    template binds to its data, given here by that data.  The result is
    [None] where [addNodeData] is. *)
Definition nodeDoubleClick (clicked : option ObjectData) (d : Diagram) :
    option Diagram :=
  match clicked with
  | Some thisemp =>
      let d := startTransaction "add employee" d in
      let newemp := object [
        ("name", VStr "(new person)");
        ("text", VStr "");
        ("comments", VStr "");
        ("parent", get_prop thisemp "key")
      ] in
      m ← addNodeData (model d) newemp;
      let d := {| model := m;
                  openTransactions := openTransactions d;
                  committed := committed d |} in
      Some (commitTransaction "add employee" d)
  | None => Some d
  end.

(** The keys of the node data of a model, in order. *)
Definition node_keys (m : Model) : list value :=
  (fun d => get_prop d "key") <$> nodeDataArray m.

(** A model in which the node keys 1, 2 and 4 and the link keys -1 and
    -2 are taken. *)
Definition small_model : Model :=
  {| nodeDataArray := [object [("key", VNum 1)]; object [("key", VNum 2)];
                       object [("key", VNum 4)]];
     linkDataArray := [object [("key", VNum (-1)); ("from", VNum 1); ("to", VNum 2)];
                       object [("key", VNum (-2)); ("from", VNum 1); ("to", VNum 4)]] |}.

Definition small_diagram : Diagram :=
  {| model := small_model; openTransactions := []; committed := [] |}.

(** A [go.Link] of the diagram between two nodes; nodes are referred to
    by number. *)
Record Link : Type := {
  fromNode : nat;
  toNode : nat
}.

(** [n.findTreeParentLink()]: the first link that comes into the node,
    with its position among the links, or [null]. *)
Definition findTreeParentLink (links : list Link) (n : nat) : option (nat * Link) :=
  list_find (fun l => toNode l = n) links.

(** [n.findTreeParentNode()]: the node that link comes from. *)
Definition findTreeParentNode (links : list Link) (n : nat) : option nat :=
  (fun il => fromNode il.2) <$> findTreeParentLink links n.

(** Going up from [n] by tree-parent links, at most [fuel] times, until
    [target] is met. *)
Fixpoint climbs (links : list Link) (fuel : nat) (n target : nat) : bool :=
  match fuel with
  | 0 => false
  | S fuel' =>
      match findTreeParentNode links n with
      | None => false
      | Some q => if decide (q = target) then true
                  else climbs links fuel' q target
      end
  end.

(** [node2.isInTreeOf(node1)], the engine's predicate: whether [node1]
    is the tree parent of [node2] or further up.  In a tree every step
    up uses another link, so the number of links bounds the way. *)
Definition isInTreeOf (links : list Link) (node2 node1 : nat) : bool :=
  climbs links (length links) node2 node1.

(** A part of the diagram as the handlers tell them apart. *)
Inductive Part : Type :=
| NodePart (n : nat)
| LinkPart
| OtherPart.

(** [mayWorkFor(node1, node2)]; [node1] may be [null]. *)
Definition mayWorkFor (links : list Link) (node1 : option Part) (node2 : nat) : bool :=
  match node1 with
  | Some (NodePart n1) =>
      if decide (n1 = node2) then false           (* cannot work for yourself *)
      else if isInTreeOf links node2 n1 then false
      else true
  | _ => false                                    (* must be a Node *)
  end.

(** The body of the [if] in [mouseDrop]: the link into [selnode] is
    made to come from [node], or, when there is none, a link from
    [node] to [selnode] is inserted. *)
Definition set_boss (links : list Link) (selnode node : nat) : list Link :=
  match findTreeParentLink links selnode with
  | Some (i, link) =>                             (* link.fromNode = node *)
      <[i := {| fromNode := node; toNode := toNode link |}]> links
  | None =>                                       (* insertLink(node, .., selnode, ..) *)
      links ++ [{| fromNode := node; toNode := selnode |}]
  end.

(** [mouseDrop(e, node)]; [selnode] is [diagram.selection.first()]. *)
Definition mouseDrop (links : list Link) (selnode : option Part) (node : nat) :
    list Link :=
  if mayWorkFor links selnode node then
    match selnode with
    | Some (NodePart s) => set_boss links s node
    | _ => links
    end
  else links.

(** The shape of a node: its [fill], and the expando [_prevFill] that
    the drag handlers keep on it ([None] while it is undefined). *)
Record Shape : Type := {
  fill : string;
  prevFill : option string
}.

(** [mouseDragEnter(e, node, prev)]; [shape] is
    [node.findObject("SHAPE")], or [null]. *)
Definition mouseDragEnter (links : list Link) (selnode : option Part) (node : nat)
    (shape : option Shape) : option Shape :=
  if negb (mayWorkFor links selnode node) then shape
  else
    match shape with
    | Some sh => Some {| fill := "darkred"; prevFill := Some (fill sh) |}
    | None => None
    end.

(** [mouseDragLeave(e, node, next)]: the fill is restored when
    [_prevFill] is set to a brush that counts as true. *)
Definition mouseDragLeave (shape : option Shape) : option Shape :=
  match shape with
  | Some sh =>
      match prevFill sh with
      | Some f => if decide (f = "") then Some sh
                  else Some {| fill := f; prevFill := prevFill sh |}
      | None => Some sh
      end
  | None => None
  end.

(** The tree-parent relation of the diagram. *)
Definition boss_of (links : list Link) (n b : nat) : Prop :=
  findTreeParentNode links n = Some b.

(** No node is above itself. *)
Definition acyclic (links : list Link) : Prop :=
  forall n, ~ tc (boss_of links) n n.

(** The chart of three people: 1 and 2 work for 0. *)
Definition small_chart : list Link :=
  [{| fromNode := 0; toNode := 1 |}; {| fromNode := 0; toNode := 2 |}].

End Wrapper.

Import App.

(* ===================================================================== *)
(** * Arrays and [forEach] *)
(* ===================================================================== *)

Section array_facts.
Context {A : Type}.
Implicit Types (arr : Array A) (i j : nat) (x : A).

Lemma array_get_Some arr i x :
  array_get arr i = Some x <-> arr !! i = Some (Some x).
Proof.
  unfold array_get. destruct (arr !! i) as [[y|]|]; simpl; split; congruence.
Qed.

Lemma array_get_lt arr i x : array_get arr i = Some x -> i < length arr.
Proof. rewrite array_get_Some. apply lookup_lt_Some. Qed.

Lemma array_get_app_l arr (rest : Array A) i :
  i < length arr -> array_get (arr ++ rest) i = array_get arr i.
Proof. intros Hi. unfold array_get. by rewrite lookup_app_l. Qed.

Lemma array_get_snoc arr (s : option A) :
  array_get (arr ++ [s]) (length arr) = s.
Proof. unfold array_get. by rewrite list_lookup_middle. Qed.

(** Reading back the slot that was just assigned, in range or not. *)
Lemma array_get_set_eq arr i x : array_get (array_set arr i x) i = Some x.
Proof.
  unfold array_set, array_get. case_decide as Hi.
  - by rewrite list_lookup_insert_eq.
  - rewrite app_assoc, list_lookup_middle; [done|].
    rewrite length_app, length_replicate. lia.
Qed.

(** Every other slot reads as before. *)
Lemma array_get_set_ne arr i j x :
  i <> j -> array_get (array_set arr i x) j = array_get arr j.
Proof.
  intros Hij. unfold array_set, array_get. case_decide as Hi.
  - by rewrite list_lookup_insert_ne.
  - destruct (decide (j < length arr)) as [Hj|Hj].
    + by rewrite lookup_app_l.
    + rewrite (lookup_ge_None_2 arr j) by lia.
      rewrite lookup_app_r by lia.
      destruct (decide (j - length arr < i - length arr)) as [Hlt|Hge].
      * rewrite lookup_app_l by (rewrite length_replicate; lia).
        by rewrite lookup_replicate_2.
      * rewrite lookup_app_r by (rewrite length_replicate; lia).
        rewrite length_replicate.
        destruct (j - length arr - (i - length arr)) as [|n] eqn:E; [lia|].
        done.
Qed.

(** An assignment in range keeps the length. *)
Lemma length_array_set arr i x :
  i < length arr -> length (array_set arr i x) = length arr.
Proof. intros Hi. unfold array_set. case_decide; [|lia]. apply length_insert. Qed.

Context {St : Type}.
Implicit Types (f : A -> nat -> St -> St) (s : St).

Lemma forEach_from_app f i arr (rest : Array A) s :
  forEach_from f i (arr ++ rest) s =
  forEach_from f (i + length arr) rest (forEach_from f i arr s).
Proof.
  revert i s. induction arr as [|[n|] arr IH]; intros i s; simpl.
  - by rewrite Nat.add_0_r.
  - rewrite IH. f_equal. lia.
  - rewrite IH. f_equal. lia.
Qed.

Lemma forEach_snoc f arr (o : option A) s :
  forEach f (arr ++ [o]) s =
  match o with
  | Some n => f n (length arr) (forEach f arr s)
  | None => forEach f arr s
  end.
Proof. unfold forEach. rewrite forEach_from_app. by destruct o. Qed.

End array_facts.

(* ===================================================================== *)
(** * The key -> index map *)
(* ===================================================================== *)

Section node_index.
Implicit Types (this : App) (arr : Array ObjectData) (k : value) (p : nat).

Lemma indexFor_refresh this arr k :
  indexFor (refreshNodeIndex this arr) k = forEach set_key arr ∅ !! k.
Proof. reflexivity. Qed.

(** The map that was there before the call plays no part. *)
Lemma refreshNodeIndex_forgets this1 this2 arr :
  mapNodeKeyIdx (refreshNodeIndex this1 arr) =
  mapNodeKeyIdx (refreshNodeIndex this2 arr).
Proof. reflexivity. Qed.

Lemma refreshNodeIndex_state this arr :
  state (refreshNodeIndex this arr) = state this.
Proof. reflexivity. Qed.

(** An entry of the rebuilt map points at a record carrying its key. *)
Lemma refresh_sound this arr k p :
  indexFor (refreshNodeIndex this arr) k = Some p ->
  exists nd, array_get arr p = Some nd /\ get_prop nd "key" = k.
Proof.
  rewrite indexFor_refresh. revert k p.
  induction arr as [|o arr IH] using rev_ind; intros k p.
  - unfold forEach; simpl. by rewrite lookup_empty.
  - rewrite forEach_snoc. destruct o as [n|].
    + unfold set_key at 1.
      destruct (decide (get_prop n "key" = k)) as [<-|Hne].
      * rewrite lookup_insert_eq. intros [= <-].
        exists n. by rewrite array_get_snoc.
      * rewrite lookup_insert_ne by done. intros Hp.
        destruct (IH _ _ Hp) as (nd & Hnd & Hk).
        exists nd. split; [|done].
        rewrite array_get_app_l; [done|]. by eapply array_get_lt.
    + intros Hp. destruct (IH _ _ Hp) as (nd & Hnd & Hk).
      exists nd. split; [|done].
      rewrite array_get_app_l; [done|]. by eapply array_get_lt.
Qed.

(** Every record's key has an entry, at the record's position or at a
    later one. *)
Lemma refresh_present this arr p nd :
  array_get arr p = Some nd ->
  exists q, indexFor (refreshNodeIndex this arr) (get_prop nd "key") = Some q
            /\ p <= q.
Proof.
  rewrite indexFor_refresh. revert p nd.
  induction arr as [|o arr IH] using rev_ind; intros p nd Hp.
  - by destruct p.
  - rewrite forEach_snoc.
    destruct (decide (p < length arr)) as [Hlt|Hge].
    + rewrite array_get_app_l in Hp by done.
      destruct (IH _ _ Hp) as (q & Hq & Hle).
      destruct o as [n|]; [|by eauto].
      unfold set_key at 1.
      destruct (decide (get_prop n "key" = get_prop nd "key")) as [->|Hne].
      * rewrite lookup_insert_eq. exists (length arr). split; [done|lia].
      * rewrite lookup_insert_ne by done. eauto.
    + pose proof (array_get_lt _ _ _ Hp) as Hlen.
      rewrite length_app in Hlen; simpl in Hlen.
      assert (p = length arr) as -> by lia.
      rewrite array_get_snoc in Hp. subst o.
      unfold set_key at 1. rewrite lookup_insert_eq. eauto.
Qed.

(** With distinct keys the entry is the record's own position. *)
Lemma refresh_distinct this arr p nd :
  distinct_keys arr ->
  array_get arr p = Some nd ->
  indexFor (refreshNodeIndex this arr) (get_prop nd "key") = Some p.
Proof.
  intros Hd Hp.
  destruct (refresh_present this _ _ _ Hp) as (q & Hq & _).
  destruct (refresh_sound _ _ _ _ Hq) as (nd' & Hq' & Hk).
  by rewrite (Hd p q nd nd').
Qed.

(** A key that no record carries has no entry. *)
Lemma refresh_absent this arr k :
  (forall p nd, array_get arr p = Some nd -> get_prop nd "key" <> k) ->
  indexFor (refreshNodeIndex this arr) k = None.
Proof.
  intros Habs.
  destruct (indexFor (refreshNodeIndex this arr) k) as [p|] eqn:E; [|done].
  destruct (refresh_sound _ _ _ _ E) as (nd & Hp & Hk).
  by destruct (Habs _ _ Hp).
Qed.

End node_index.

Lemma scenario_nodes_get p nd :
  array_get scenario_nodes p = Some nd ->
  (p = 0 /\ get_prop nd "key" = VNum 1) \/ (p = 1 /\ get_prop nd "key" = VNum 2).
Proof.
  destruct p as [|[|p]]; intros [= <-]; [left|right]; split; reflexivity.
Qed.

Lemma scenario_distinct_keys : distinct_keys scenario_nodes.
Proof.
  intros i j ni nj Hi Hj.
  destruct (scenario_nodes_get _ _ Hi) as [[-> ->]|[-> ->]];
    destruct (scenario_nodes_get _ _ Hj) as [[-> ->]|[-> ->]]; done.
Qed.

(** C6.  After the index is rebuilt from a collection whose records have
    distinct keys, [indexFor k] returns, for every key [k] that a record
    of the collection carries, a position [p] with
    [collection[p].key = k]. *)
Theorem refreshNodeIndex_indexFor (this : App) (arr : Array ObjectData) (k : value) :
  distinct_keys arr ->
  (exists i nd, array_get arr i = Some nd /\ get_prop nd "key" = k) ->
  exists p nd,
    indexFor (refreshNodeIndex this arr) k = Some p /\
    array_get arr p = Some nd /\ get_prop nd "key" = k.
Proof.
  intros Hd (i & nd & Hi & <-).
  exists i, nd. split; [|done]. by apply refresh_distinct.
Qed.

Lemma refreshNodeIndex_indexFor_witness :
  exists p nd,
    indexFor (refreshNodeIndex (construct []) scenario_nodes) (VNum 2) = Some p /\
    array_get scenario_nodes p = Some nd /\ get_prop nd "key" = VNum 2.
Proof.
  apply refreshNodeIndex_indexFor.
  - exact scenario_distinct_keys.
  - exists 1. eexists. split; reflexivity.
Defined.

(** C7.  After [refreshNodeIndex] has run on a collection, whatever the
    map held before: every entry maps the key of a record to a position
    holding a record with that key; a key that no record of the
    collection carries (a key of an earlier collection, say) has no
    entry; and when the keys are distinct, the entry of each record's
    key is that record's position, so that the map is one-to-one
    between the keys and the positions of the records. *)
Theorem refreshNodeIndex_exact (this : App) (arr : Array ObjectData) :
  let this' := refreshNodeIndex this arr in
  (forall k p, indexFor this' k = Some p ->
     exists nd, array_get arr p = Some nd /\ get_prop nd "key" = k) /\
  (forall k, (forall p nd, array_get arr p = Some nd -> get_prop nd "key" <> k) ->
     indexFor this' k = None) /\
  (distinct_keys arr ->
     (forall p nd, array_get arr p = Some nd ->
        indexFor this' (get_prop nd "key") = Some p) /\
     (forall k k' p, indexFor this' k = Some p -> indexFor this' k' = Some p ->
        k = k')).
Proof.
  intros this'. split; [|split].
  - intros k p. apply refresh_sound.
  - intros k. apply refresh_absent.
  - intros Hd. split.
    + intros p nd. by apply refresh_distinct.
    + intros k k' p Hk Hk'.
      destruct (refresh_sound _ _ _ _ Hk) as (nd & Hp & <-).
      destruct (refresh_sound _ _ _ _ Hk') as (nd' & Hp' & <-).
      congruence.
Qed.

Lemma refreshNodeIndex_exact_witness :
  indexFor stale_app (VNum 9) = Some 0 /\
  indexFor (refreshNodeIndex stale_app scenario_nodes) (VNum 9) = None /\
  indexFor (refreshNodeIndex stale_app scenario_nodes) (VNum 2) = Some 1.
Proof.
  destruct (refreshNodeIndex_exact stale_app scenario_nodes) as (_ & Habs & Hd).
  split; [reflexivity|]. split.
  - apply Habs. intros p nd Hp.
    destruct (scenario_nodes_get _ _ Hp) as [[_ ->]|[_ ->]]; discriminate.
  - destruct (Hd scenario_distinct_keys) as [Hpos _].
    exact (Hpos 1 _ eq_refl).
Defined.

(* ===================================================================== *)
(** * Invariants of the store *)
(* ===================================================================== *)

Section handlers.
Implicit Types (this : App) (e : DiagramEvent) (d nd : ObjectData).

Lemma set_prop_same d path v : get_prop (set_prop d path v) path = v.
Proof. unfold get_prop, set_prop. by rewrite lookup_insert_eq. Qed.

Lemma set_prop_other d path q v :
  path <> q -> get_prop (set_prop d path v) q = get_prop d q.
Proof. intros Hne. unfold get_prop, set_prop. by rewrite lookup_insert_ne. Qed.

Lemma App_eta this :
  {| state := state this; mapNodeKeyIdx := mapNodeKeyIdx this |} = this.
Proof. by destruct this. Qed.

(** The result of [handleDiagramEvent], case by case. *)
Lemma handleDiagramEvent_other_event this e :
  name e <> "ChangedSelection" -> handleDiagramEvent this e = Normal this.
Proof. intros Hn. unfold handleDiagramEvent. by case_decide. Qed.

Lemma handleDiagramEvent_empty this e :
  name e = "ChangedSelection" -> first (subject e) = None ->
  handleDiagramEvent this e =
  Normal {| state := set_selectedData (state this) Null;
            mapNodeKeyIdx := mapNodeKeyIdx this |}.
Proof.
  intros Hn Hs. unfold handleDiagramEvent, setState, produce.
  case_decide; [|done]. by rewrite Hs.
Qed.

Lemma handleDiagramEvent_node this e k idx :
  name e = "ChangedSelection" -> first (subject e) = Some (Node k) ->
  indexFor this k = Some idx ->
  handleDiagramEvent this e =
  Normal {| state := set_selectedData (state this)
                       (ref_of (array_get (nodeDataArray (state this)) idx));
            mapNodeKeyIdx := mapNodeKeyIdx this |}.
Proof.
  intros Hn Hs Hk. unfold handleDiagramEvent, setState, produce.
  unfold indexFor in Hk. case_decide; [|done]. by rewrite Hs, Hk.
Qed.

Lemma handleDiagramEvent_node_unknown this e k :
  name e = "ChangedSelection" -> first (subject e) = Some (Node k) ->
  indexFor this k = None ->
  handleDiagramEvent this e = Normal this.
Proof.
  intros Hn Hs Hk. unfold handleDiagramEvent, setState, produce.
  unfold indexFor in Hk. case_decide; [|done]. rewrite Hs, Hk.
  by rewrite App_eta.
Qed.

Lemma handleDiagramEvent_not_node this e sel :
  name e = "ChangedSelection" -> first (subject e) = Some sel ->
  (forall k, sel <> Node k) ->
  handleDiagramEvent this e = Normal this.
Proof.
  intros Hn Hs Hk. unfold handleDiagramEvent, setState, produce.
  case_decide; [|done]. rewrite Hs.
  destruct sel as [k| |]; [by destruct (Hk k)| |]; by rewrite App_eta.
Qed.

(** The result of [handleInputChange], case by case. *)
Lemma handleInputChange_throws this path value isBlur :
  selectedData (state this) = Null \/ selectedData (state this) = Undefined ->
  handleInputChange this path value isBlur = Throw TypeError.
Proof.
  intros Hs. unfold handleInputChange, setState, produce.
  by destruct Hs as [-> | ->].
Qed.

Lemma handleInputChange_live this path value d :
  selectedData (state this) = Obj d ->
  handleInputChange this path value false =
  Normal {| state := set_selectedData (state this)
                       (Obj (set_prop d path (VStr value)));
            mapNodeKeyIdx := mapNodeKeyIdx this |}.
Proof.
  intros Hs. unfold handleInputChange, setState, produce. by rewrite Hs.
Qed.

Lemma handleInputChange_blur_unknown this path value d :
  selectedData (state this) = Obj d ->
  indexFor this (get_prop (set_prop d path (VStr value)) "key") = None ->
  handleInputChange this path value true =
  Normal {| state := set_selectedData (state this)
                       (Obj (set_prop d path (VStr value)));
            mapNodeKeyIdx := mapNodeKeyIdx this |}.
Proof.
  intros Hs Hk. unfold handleInputChange, setState, produce.
  unfold indexFor in Hk. by rewrite Hs, Hk.
Qed.

Lemma handleInputChange_blur_known this path value d idx :
  selectedData (state this) = Obj d ->
  indexFor this (get_prop (set_prop d path (VStr value)) "key") = Some idx ->
  handleInputChange this path value true =
  Normal {| state :=
              set_skipsDiagramUpdate
                (set_nodeData
                   (set_selectedData (state this)
                      (Obj (set_prop d path (VStr value))))
                   idx (set_prop d path (VStr value)))
                false;
            mapNodeKeyIdx := mapNodeKeyIdx this |}.
Proof.
  intros Hs Hk. unfold handleInputChange, setState, produce.
  unfold indexFor in Hk. by rewrite Hs, Hk.
Qed.

(** Neither handler touches the map. *)
Lemma handleDiagramEvent_index this e this' :
  handleDiagramEvent this e = Normal this' ->
  mapNodeKeyIdx this' = mapNodeKeyIdx this.
Proof.
  unfold handleDiagramEvent, setState, produce.
  intros H. repeat case_match; by simplify_eq.
Qed.

Lemma handleInputChange_index this path value isBlur this' :
  handleInputChange this path value isBlur = Normal this' ->
  mapNodeKeyIdx this' = mapNodeKeyIdx this.
Proof.
  unfold handleInputChange, setState, produce.
  intros H. repeat case_match; by simplify_eq.
Qed.

(** A selection change never writes the collection. *)
Lemma handleDiagramEvent_nodeDataArray this e this' :
  handleDiagramEvent this e = Normal this' ->
  nodeDataArray (state this') = nodeDataArray (state this).
Proof.
  unfold handleDiagramEvent, setState, produce.
  intros H. repeat case_match; by simplify_eq.
Qed.

End handlers.

Section store_invariant.
Implicit Types (this : App) (nodes : Array ObjectData).

Lemma store_ok_construct nodes : store_ok (construct nodes).
Proof.
  split.
  - intros k idx. apply refresh_sound.
  - intros p nd Hp.
    destruct (refresh_present
                {| state := state (construct nodes); mapNodeKeyIdx := ∅ |}
                nodes p nd Hp) as (q & Hq & _).
    by exists q.
Qed.

Lemma store_ok_handleDiagramEvent this e this' :
  store_ok this -> handleDiagramEvent this e = Normal this' -> store_ok this'.
Proof.
  intros [Hv Hc] He.
  pose proof (handleDiagramEvent_index _ _ _ He) as Hm.
  pose proof (handleDiagramEvent_nodeDataArray _ _ _ He) as Ha.
  split.
  - intros k idx. unfold indexFor. rewrite Hm, Ha. apply Hv.
  - intros p nd. unfold indexFor. rewrite Hm, Ha. apply Hc.
Qed.

(** A committed edit puts the working copy at the position that the map
    gives for the working copy's own key, where a record with that key
    stood: no position changes its key. *)
Lemma store_ok_handleInputChange this path value isBlur this' :
  store_ok this ->
  handleInputChange this path value isBlur = Normal this' ->
  store_ok this'.
Proof.
  intros [Hv Hc] He.
  destruct (selectedData (state this)) as [| |d] eqn:Hs;
    [rewrite handleInputChange_throws in He by auto; done ..|].
  set (d' := set_prop d path (VStr value)) in *.
  destruct isBlur;
    [destruct (indexFor this (get_prop d' "key")) as [idx|] eqn:Hk|].
  - rewrite (handleInputChange_blur_known _ _ _ _ idx Hs Hk) in He.
    injection He as <-. fold d'.
    destruct (Hv _ _ Hk) as (old & Hold & Hold_key).
    split.
    + intros k0 idx0 Hk0. unfold indexFor in Hk0; simpl in *.
      destruct (decide (idx = idx0)) as [<-|Hne].
      * exists d'. rewrite array_get_set_eq. split; [done|].
        destruct (Hv _ _ Hk0) as (old' & Hold' & <-). congruence.
      * rewrite array_get_set_ne by done. by apply Hv.
    + intros p nd. unfold indexFor; simpl.
      destruct (decide (idx = p)) as [<-|Hne].
      * rewrite array_get_set_eq. intros [= <-]. by exists idx.
      * rewrite array_get_set_ne by done. apply Hc.
  - rewrite (handleInputChange_blur_unknown _ _ _ _ Hs Hk) in He.
    injection He as <-. split; [exact Hv|exact Hc].
  - rewrite (handleInputChange_live _ _ _ _ Hs) in He.
    injection He as <-. split; [exact Hv|exact Hc].
Qed.

Lemma reachable_store_ok nodes this : reachable nodes this -> store_ok this.
Proof.
  induction 1 as [|this e this' _ IH He|this path value isBlur this' _ IH He].
  - apply store_ok_construct.
  - by eapply store_ok_handleDiagramEvent.
  - by eapply store_ok_handleInputChange.
Qed.

(** The collection keeps its length: a committed edit always lands on a
    position inside it, so the array never grows. *)
Lemma reachable_length nodes this :
  reachable nodes this ->
  length (nodeDataArray (state this)) = length nodes.
Proof.
  induction 1 as [|this e this' Hr IH He|this path value isBlur this' Hr IH He].
  - done.
  - by rewrite (handleDiagramEvent_nodeDataArray _ _ _ He).
  - destruct (reachable_store_ok _ _ Hr) as [Hv _].
    revert He. unfold handleInputChange, setState, produce.
    intros He. repeat case_match; simplify_eq; simpl; try done.
    match goal with H : mapNodeKeyIdx _ !! _ = Some _ |- _ =>
      destruct (Hv _ _ H) as (nd & Hnd%array_get_lt & _) end.
    by rewrite length_array_set.
Qed.

(** In a reachable component the selection is [null] or a record: it is
    never [undefined], because the map only holds positions of records. *)
Lemma reachable_selected_defined nodes this :
  reachable nodes this -> selectedData (state this) <> Undefined.
Proof.
  induction 1 as [|this e this' Hr IH He|this path value isBlur this' Hr IH He].
  - discriminate.
  - destruct (reachable_store_ok _ _ Hr) as [Hv _].
    revert He. unfold handleDiagramEvent, setState, produce.
    intros He. repeat case_match; simplify_eq; simpl; try done.
    match goal with H : mapNodeKeyIdx _ !! _ = Some _ |- _ =>
      destruct (Hv _ _ H) as (nd & -> & _) end.
    done.
  - revert He. unfold handleInputChange, setState, produce.
    intros He. repeat case_match; by simplify_eq.
Qed.

End store_invariant.

(* ===================================================================== *)
(** * Selection changes *)
(* ===================================================================== *)

(** C1.  On every selection-change notification the handler completes,
    and: when the first selected part is a node whose key [k] is the key
    of a record of the collection, [selectedData] becomes the record
    that the collection holds under [k] (at the position the map gives
    for [k]); when the selection is empty, [selectedData] becomes
    [null]; when the first selected part is not a node (a link, say),
    [selectedData] is what it was before. *)
Theorem handleDiagramEvent_ChangedSelection
    (nodes : Array ObjectData) (this : App) (e : DiagramEvent) :
  reachable nodes this ->
  name e = "ChangedSelection" ->
  exists this',
    handleDiagramEvent this e = Normal this' /\
    match first (subject e) with
    | Some (Node k) =>
        (exists p nd0, array_get (nodeDataArray (state this)) p = Some nd0 /\
                       get_prop nd0 "key" = k) ->
        exists idx nd,
          indexFor this k = Some idx /\
          array_get (nodeDataArray (state this)) idx = Some nd /\
          get_prop nd "key" = k /\
          selectedData (state this') = Obj nd
    | Some _ => selectedData (state this') = selectedData (state this)
    | None => selectedData (state this') = Null
    end.
Proof.
  intros Hr Hn. destruct (reachable_store_ok _ _ Hr) as [Hv Hc].
  destruct (first (subject e)) as [[k| |]|] eqn:Hs.
  - destruct (indexFor this k) as [idx|] eqn:Hk.
    + eexists. split; [by apply (handleDiagramEvent_node _ _ k idx)|].
      intros _. destruct (Hv _ _ Hk) as (nd & Hnd & Hkey).
      exists idx, nd. simpl. by rewrite Hnd.
    + exists this. split; [by apply (handleDiagramEvent_node_unknown _ _ k)|].
      intros (p & nd0 & Hp & <-). destruct (Hc _ _ Hp) as [idx Hidx].
      congruence.
  - exists this. split; [|done].
    by apply (handleDiagramEvent_not_node _ _ Link).
  - exists this. split; [|done].
    by apply (handleDiagramEvent_not_node _ _ OtherPart).
  - eexists. split; [by apply handleDiagramEvent_empty|]. done.
Qed.

Lemma handleDiagramEvent_ChangedSelection_witness :
  exists this',
    handleDiagramEvent (construct scenario_nodes)
      {| name := "ChangedSelection"; subject := [Node (VNum 2); Link] |}
    = Normal this' /\
    ((exists p nd0, array_get scenario_nodes p = Some nd0 /\
                    get_prop nd0 "key" = VNum 2) ->
     exists idx nd,
       indexFor (construct scenario_nodes) (VNum 2) = Some idx /\
       array_get scenario_nodes idx = Some nd /\
       get_prop nd "key" = VNum 2 /\
       selectedData (state this') = Obj nd).
Proof.
  apply (handleDiagramEvent_ChangedSelection scenario_nodes
           (construct scenario_nodes)
           {| name := "ChangedSelection"; subject := [Node (VNum 2); Link] |}).
  - apply reachable_construct.
  - reflexivity.
Defined.

(** C9.  On a selection-change notification whose first selected part is
    a node with a key that the map does not hold, the handler completes
    and leaves the component, [selectedData] included, as it was. *)
Theorem handleDiagramEvent_key_not_indexed
    (this : App) (e : DiagramEvent) (k : value) :
  name e = "ChangedSelection" ->
  first (subject e) = Some (Node k) ->
  indexFor this k = None ->
  handleDiagramEvent this e = Normal this.
Proof.
  intros Hn Hs Hk. unfold indexFor in Hk.
  unfold handleDiagramEvent, setState, produce.
  rewrite decide_True by done. rewrite Hs, Hk.
  by destruct this.
Qed.

Lemma handleDiagramEvent_key_not_indexed_witness :
  handleDiagramEvent (construct scenario_nodes)
    {| name := "ChangedSelection"; subject := [Node (VNum 7)] |}
  = Normal (construct scenario_nodes).
Proof.
  apply (handleDiagramEvent_key_not_indexed _ _ (VNum 7)); reflexivity.
Defined.

(* ===================================================================== *)
(** * Edits from the inspector *)
(* ===================================================================== *)

Lemma constructor_indexFor_3 : indexFor constructor (VNum 3) = Some 2.
Proof. vm_compute. reflexivity. Qed.

Lemma constructor_select_3 :
  handleDiagramEvent constructor select_3 = Normal selected_3.
Proof.
  rewrite (handleDiagramEvent_node _ _ (VNum 3) 2);
    [reflexivity|reflexivity|reflexivity|exact constructor_indexFor_3].
Qed.

Lemma selected_3_reachable : reachable initial_nodeDataArray selected_3.
Proof.
  eapply reachable_diagram_event; [apply reachable_construct|].
  exact constructor_select_3.
Qed.

(** C3.  An edit with [isBlur = false] that arrives while a record is
    selected completes; the working copy [selectedData] then has
    [value] at [path], and the collection is the one from before, record
    for record. *)
Theorem handleInputChange_live_edit
    (this : App) (path value : string) (d : ObjectData) :
  selectedData (state this) = Obj d ->
  exists this' d',
    handleInputChange this path value false = Normal this' /\
    selectedData (state this') = Obj d' /\
    get_prop d' path = VStr value /\
    (forall q, q <> path -> get_prop d' q = get_prop d q) /\
    nodeDataArray (state this') = nodeDataArray (state this).
Proof.
  intros Hs. eexists. exists (set_prop d path (VStr value)).
  split; [by apply handleInputChange_live|]. simpl.
  split; [done|]. split; [apply set_prop_same|].
  split; [|done]. intros q Hq. by apply set_prop_other.
Qed.

Lemma handleInputChange_live_edit_witness :
  exists this' d',
    handleInputChange selected_3 "name" "Bob" false = Normal this' /\
    selectedData (state this') = Obj d' /\
    get_prop d' "name" = VStr "Bob" /\
    (forall q, q <> "name" -> get_prop d' q = get_prop meg q) /\
    nodeDataArray (state this') = nodeDataArray (state selected_3).
Proof.
  apply (handleInputChange_live_edit selected_3 "name" "Bob" meg).
  reflexivity.
Defined.

(** C2 as worded fails when the edited field is the key itself: the
    handler looks the position up under the key that the working copy
    has after the edit.  In the running application, with the record of
    key 3 selected (the map gives position 2 for 3), a committed edit of
    ["key"] to ["99"] completes, finds no entry for the string ["99"],
    and leaves position 2 of the collection as it was, without the
    edited field. *)
Lemma handleInputChange_commit_key_counterexample :
  selectedData (state selected_3) = Obj meg /\
  get_prop meg "key" = VNum 3 /\
  indexFor selected_3 (VNum 3) = Some 2 /\
  handleInputChange selected_3 "key" "99" true = Normal renamed_3 /\
  selectedData (state renamed_3) = Obj (set_prop meg "key" (VStr "99")) /\
  array_get (nodeDataArray (state renamed_3)) 2 = Some meg /\
  get_prop meg "key" <> VStr "99".
Proof.
  split; [reflexivity|]. split; [reflexivity|].
  split; [exact constructor_indexFor_3|].
  split; [|split; [reflexivity|split; [reflexivity|discriminate]]].
  rewrite (handleInputChange_blur_unknown selected_3 "key" "99" meg);
    [reflexivity|reflexivity|].
  vm_compute. reflexivity.
Qed.

(** C2 (amended).  A committing edit ([isBlur = true]) that arrives
    while a record with key [k] is selected, [k] having an entry [idx]
    in the map, and that leaves the working copy's key equal to [k]
    (every [path] other than ["key"] does) completes; afterwards the
    collection holds the working copy at position [idx], with [value] at
    [path]; [skipsDiagramUpdate] is [false], so that the diagram takes
    the state of the component; every other position reads as before;
    and [indexFor k] is still [idx], a position whose record has key
    [k]. *)
Theorem handleInputChange_commit
    (this : App) (path value : string) (d : ObjectData) (k : Js.value) (idx : nat) :
  selectedData (state this) = Obj d ->
  get_prop d "key" = k ->
  indexFor this k = Some idx ->
  get_prop (set_prop d path (VStr value)) "key" = k ->
  exists this' d',
    handleInputChange this path value true = Normal this' /\
    selectedData (state this') = Obj d' /\
    array_get (nodeDataArray (state this')) idx = Some d' /\
    get_prop d' path = VStr value /\
    skipsDiagramUpdate (state this') = false /\
    (forall j, j <> idx ->
       array_get (nodeDataArray (state this')) j =
       array_get (nodeDataArray (state this)) j) /\
    indexFor this' k = Some idx /\
    get_prop d' "key" = k.
Proof.
  intros Hs Hk Hidx Hk'. rewrite <- Hk' in Hidx.
  eexists. exists (set_prop d path (VStr value)).
  split; [by apply (handleInputChange_blur_known _ _ _ d idx)|]. simpl.
  split; [done|]. split; [apply array_get_set_eq|].
  split; [apply set_prop_same|]. split; [done|].
  split; [|by rewrite <- Hk' at 1].
  intros j Hj. by apply array_get_set_ne.
Qed.

Lemma handleInputChange_commit_witness :
  exists this' d',
    handleInputChange selected_3 "name" "Bob" true = Normal this' /\
    selectedData (state this') = Obj d' /\
    array_get (nodeDataArray (state this')) 2 = Some d' /\
    get_prop d' "name" = VStr "Bob" /\
    skipsDiagramUpdate (state this') = false /\
    (forall j, j <> 2 ->
       array_get (nodeDataArray (state this')) j =
       array_get (nodeDataArray (state selected_3)) j) /\
    indexFor this' (VNum 3) = Some 2 /\
    get_prop d' "key" = VNum 3.
Proof.
  apply (handleInputChange_commit selected_3 "name" "Bob" meg (VNum 3) 2).
  - reflexivity.
  - reflexivity.
  - vm_compute. reflexivity.
  - reflexivity.
Defined.

(** Every [path] other than ["key"] leaves the key in place. *)
Lemma set_prop_keeps_key (d : ObjectData) (path : string) (v : Js.value) :
  path <> "key" -> get_prop (set_prop d path v) "key" = get_prop d "key".
Proof. apply set_prop_other. Qed.

(** C5.  A committing edit whose working copy carries a key that the
    map does not hold completes without writing the store: the
    collection, the map, the model data and [skipsDiagramUpdate] are
    what they were; only the working copy takes the edit. *)
Theorem handleInputChange_commit_key_not_indexed
    (this : App) (path value : string) (d : ObjectData) :
  selectedData (state this) = Obj d ->
  indexFor this (get_prop (set_prop d path (VStr value)) "key") = None ->
  exists this',
    handleInputChange this path value true = Normal this' /\
    nodeDataArray (state this') = nodeDataArray (state this) /\
    mapNodeKeyIdx this' = mapNodeKeyIdx this /\
    modelData (state this') = modelData (state this) /\
    skipsDiagramUpdate (state this') = skipsDiagramUpdate (state this) /\
    selectedData (state this') = Obj (set_prop d path (VStr value)).
Proof.
  intros Hs Hk. eexists.
  split; [by apply handleInputChange_blur_unknown|]. done.
Qed.

Lemma handleInputChange_commit_key_not_indexed_witness :
  exists this',
    handleInputChange renamed_3 "name" "Bob" true = Normal this' /\
    nodeDataArray (state this') = nodeDataArray (state renamed_3) /\
    mapNodeKeyIdx this' = mapNodeKeyIdx renamed_3 /\
    modelData (state this') = modelData (state renamed_3) /\
    skipsDiagramUpdate (state this') = skipsDiagramUpdate (state renamed_3) /\
    selectedData (state this') =
      Obj (set_prop (set_prop meg "key" (VStr "99")) "name" (VStr "Bob")).
Proof.
  apply (handleInputChange_commit_key_not_indexed renamed_3 "name" "Bob").
  - reflexivity.
  - vm_compute. reflexivity.
Defined.

(** C4 as worded fails: an edit that arrives while nothing is selected
    does not complete normally.  In the freshly constructed application
    ([selectedData] is [null]) the handler throws. *)
Lemma handleInputChange_no_selection_counterexample :
  selectedData (state constructor) = Null /\
  ~ exists this', handleInputChange constructor "name" "Bob" false = Normal this'.
Proof.
  split; [reflexivity|]. intros [this' H].
  rewrite handleInputChange_throws in H by (left; reflexivity).
  discriminate.
Qed.

(** C4 (amended).  An edit that arrives while [selectedData] is [null]
    makes the handler throw a [TypeError], so that no next state is
    produced; and while [selectedData] is [null], [render] mounts no
    inspector, the component through which edits arrive. *)
Theorem handleInputChange_no_selection
    (this : App) (path value : string) (isBlur : bool) :
  selectedData (state this) = Null ->
  handleInputChange this path value isBlur = Throw TypeError /\
  inspector (render this) = None.
Proof.
  intros Hs. split.
  - apply handleInputChange_throws. by left.
  - unfold render. by rewrite Hs.
Qed.

Lemma handleInputChange_no_selection_witness :
  handleInputChange constructor "name" "Bob" true = Throw TypeError /\
  inspector (render constructor) = None.
Proof.
  apply (handleInputChange_no_selection constructor "name" "Bob" true).
  reflexivity.
Defined.

(** The scenario of the specification, run on the two-record store:
    selecting key 2 shows the record named ["B"]; the committed edit of
    ["name"] to ["B2"] reaches position 1 of the collection; selecting
    nothing clears the selection. *)
Example spec_scenario :
  exists s1 s2 s3 d1 d2,
    handleDiagramEvent (construct scenario_nodes)
      {| name := "ChangedSelection"; subject := [Node (VNum 2)] |} = Normal s1 /\
    selectedData (state s1) = Obj d1 /\ get_prop d1 "name" = VStr "B" /\
    handleInputChange s1 "name" "B2" true = Normal s2 /\
    array_get (nodeDataArray (state s2)) 1 = Some d2 /\
    get_prop d2 "name" = VStr "B2" /\
    handleDiagramEvent s2 {| name := "ChangedSelection"; subject := [] |}
      = Normal s3 /\
    selectedData (state s3) = Null.
Proof.
  do 5 eexists.
  split; [vm_compute; reflexivity|].
  split; [reflexivity|]. split; [reflexivity|].
  split; [vm_compute; reflexivity|].
  split; [reflexivity|]. split; [reflexivity|].
  split; [vm_compute; reflexivity|]. reflexivity.
Qed.

(* ===================================================================== *)
(** * The store over the life of the component *)
(* ===================================================================== *)

Section lifetime.
Implicit Types (this : App) (nodes : Array ObjectData).

Lemma reachable_index nodes this :
  reachable nodes this ->
  mapNodeKeyIdx this = mapNodeKeyIdx (construct nodes).
Proof.
  induction 1 as [|this e this' _ IH He|this path value isBlur this' _ IH He].
  - done.
  - by rewrite (handleDiagramEvent_index _ _ _ He).
  - by rewrite (handleInputChange_index _ _ _ _ _ He).
Qed.

Lemma slot_key_set_same (arr : Array ObjectData) idx (old d : ObjectData) p :
  array_get arr idx = Some old ->
  get_prop old "key" = get_prop d "key" ->
  slot_key (array_set arr idx d) p = slot_key arr p.
Proof.
  intros Hold Hk. unfold slot_key. destruct (decide (idx = p)) as [<-|Hne].
  - rewrite array_get_set_eq, Hold. simpl. by rewrite Hk.
  - by rewrite array_get_set_ne.
Qed.

Lemma reachable_slot_key nodes this p :
  reachable nodes this ->
  slot_key (nodeDataArray (state this)) p = slot_key nodes p.
Proof.
  induction 1 as [|this e this' Hr IH He|this path value isBlur this' Hr IH He].
  - done.
  - by rewrite (handleDiagramEvent_nodeDataArray _ _ _ He).
  - destruct (reachable_store_ok _ _ Hr) as [Hv _].
    revert He. unfold handleInputChange, setState, produce.
    intros He. repeat case_match; simplify_eq; simpl; try done.
    match goal with H : mapNodeKeyIdx _ !! _ = Some _ |- _ =>
      destruct (Hv _ _ H) as (old & Hold & Hkey) end.
    by rewrite (slot_key_set_same _ _ old).
Qed.

Lemma reachable_flags nodes this :
  reachable nodes this ->
  skipsDiagramUpdate (state this) = false /\
  modelData (state this) = modelData (state (construct nodes)).
Proof.
  induction 1 as [|this e this' _ IH He|this path value isBlur this' _ IH He].
  - done.
  - destruct IH as [IH1 IH2]. revert He.
    unfold handleDiagramEvent, setState, produce.
    intros He. repeat case_match; simplify_eq; by simpl.
  - destruct IH as [IH1 IH2]. revert He.
    unfold handleInputChange, setState, produce.
    intros He. repeat case_match; simplify_eq; by simpl.
Qed.

(** The entry of a key points at the last record that carries it. *)
Lemma refresh_last this (arr : Array ObjectData) k p q nd :
  indexFor (refreshNodeIndex this arr) k = Some p ->
  p < q -> array_get arr q = Some nd -> get_prop nd "key" <> k.
Proof.
  intros Hk Hlt Hq <-.
  rewrite indexFor_refresh in Hk. revert p q nd Hk Hlt Hq.
  induction arr as [|o arr IH] using rev_ind; intros p q nd Hk Hlt Hq.
  - by destruct q.
  - rewrite forEach_snoc in Hk.
    destruct (decide (q < length arr)) as [Hql|Hqg].
    + rewrite array_get_app_l in Hq by done.
      destruct o as [n|]; [|by eapply IH].
      unfold set_key at 1 in Hk.
      destruct (decide (get_prop n "key" = get_prop nd "key")) as [He|Hne].
      * rewrite He, lookup_insert_eq in Hk. injection Hk as <-. lia.
      * rewrite lookup_insert_ne in Hk by done. by eapply IH.
    + pose proof (array_get_lt _ _ _ Hq) as Hlen.
      rewrite length_app in Hlen; simpl in Hlen.
      assert (q = length arr) as -> by lia.
      rewrite array_get_snoc in Hq. subst o.
      unfold set_key at 1 in Hk. rewrite lookup_insert_eq in Hk.
      injection Hk as <-. lia.
Qed.

End lifetime.

(** X1.  Through the whole life of the component the map is the one the
    constructor built: no handler call adds, removes or changes an
    entry. *)
Theorem index_never_changes (nodes : Array ObjectData) (this : App) (k : value) :
  reachable nodes this ->
  indexFor this k = indexFor (construct nodes) k.
Proof. intros Hr. unfold indexFor. by rewrite (reachable_index _ _ Hr). Qed.

Lemma index_never_changes_witness :
  indexFor renamed_3 (VStr "99") = indexFor constructor (VStr "99").
Proof.
  apply (index_never_changes initial_nodeDataArray renamed_3).
  eapply reachable_input_change; [exact selected_3_reachable|].
  apply (handleInputChange_live selected_3 "key" "99" meg). reflexivity.
Defined.

(** X2.  Through the whole life of the component the collection keeps
    its length, and every position keeps the key it started with (an
    empty slot stays empty): committed edits replace a record by one
    with the same key. *)
Theorem keys_stay_in_place (nodes : Array ObjectData) (this : App) :
  reachable nodes this ->
  length (nodeDataArray (state this)) = length nodes /\
  forall p, slot_key (nodeDataArray (state this)) p = slot_key nodes p.
Proof.
  intros Hr. split; [by apply reachable_length|].
  intros p. by apply reachable_slot_key.
Qed.

Lemma keys_stay_in_place_witness :
  length (nodeDataArray (state renamed_3)) = length initial_nodeDataArray /\
  forall p, slot_key (nodeDataArray (state renamed_3)) p =
            slot_key initial_nodeDataArray p.
Proof.
  apply (keys_stay_in_place initial_nodeDataArray renamed_3).
  eapply reachable_input_change; [exact selected_3_reachable|].
  apply (handleInputChange_live selected_3 "key" "99" meg). reflexivity.
Defined.

(** X3.  In every component the application can reach, each entry of the
    map points at a record that carries the entry's key, and the key of
    each record has an entry; when the initial collection has distinct
    keys, that entry is the record's own position. *)
Theorem index_consistent_when_reachable (nodes : Array ObjectData) (this : App) :
  reachable nodes this ->
  (forall k idx, indexFor this k = Some idx ->
     exists nd, array_get (nodeDataArray (state this)) idx = Some nd /\
                get_prop nd "key" = k) /\
  (forall p nd, array_get (nodeDataArray (state this)) p = Some nd ->
     is_Some (indexFor this (get_prop nd "key"))) /\
  (distinct_keys nodes ->
     forall p nd, array_get (nodeDataArray (state this)) p = Some nd ->
       indexFor this (get_prop nd "key") = Some p).
Proof.
  intros Hr. destruct (reachable_store_ok _ _ Hr) as [Hv Hc].
  split; [exact Hv|]. split; [exact Hc|].
  intros Hd p nd Hp.
  pose proof (reachable_slot_key nodes this p Hr) as Hslot.
  unfold slot_key in Hslot. rewrite Hp in Hslot. simpl in Hslot.
  destruct (array_get nodes p) as [nd0|] eqn:Hp0; [|done].
  injection Hslot as Hkey. rewrite Hkey.
  unfold indexFor at 1. rewrite (reachable_index _ _ Hr).
  change (indexFor (construct nodes) (get_prop nd0 "key") = Some p).
  unfold construct. by apply refresh_distinct.
Qed.

Lemma index_consistent_when_reachable_witness :
  (forall k idx, indexFor (construct scenario_nodes) k = Some idx ->
     exists nd, array_get scenario_nodes idx = Some nd /\
                get_prop nd "key" = k) /\
  (forall p nd, array_get scenario_nodes p = Some nd ->
     is_Some (indexFor (construct scenario_nodes) (get_prop nd "key"))) /\
  (distinct_keys scenario_nodes ->
     forall p nd, array_get scenario_nodes p = Some nd ->
       indexFor (construct scenario_nodes) (get_prop nd "key") = Some p).
Proof.
  apply (index_consistent_when_reachable scenario_nodes (construct scenario_nodes)).
  apply reachable_construct.
Defined.

(** X4.  In every component the application can reach, whenever
    [render] mounts the inspector it shows a record, and an edit coming
    from it completes: [handleInputChange] throws in no reachable
    component whose inspector is mounted. *)
Theorem inspector_edit_completes
    (nodes : Array ObjectData) (this : App) (r : ref)
    (path value : string) (isBlur : bool) :
  reachable nodes this ->
  inspector (render this) = Some r ->
  (exists d, r = Obj d) /\
  exists this', handleInputChange this path value isBlur = Normal this'.
Proof.
  intros Hr Hi. pose proof (reachable_selected_defined _ _ Hr) as Hdef.
  unfold render in Hi; simpl in Hi.
  destruct (selectedData (state this)) as [| |d] eqn:Hs; [done..|].
  injection Hi as <-. split; [by exists d|].
  destruct isBlur.
  - destruct (indexFor this (get_prop (set_prop d path (VStr value)) "key"))
      as [idx|] eqn:Hk.
    + eexists. by apply (handleInputChange_blur_known _ _ _ d idx).
    + eexists. by apply (handleInputChange_blur_unknown _ _ _ d).
  - eexists. by apply (handleInputChange_live _ _ _ d).
Qed.

Lemma inspector_edit_completes_witness :
  (exists d, Obj meg = Obj d) /\
  exists this', handleInputChange selected_3 "title" "Director" true = Normal this'.
Proof.
  apply (inspector_edit_completes initial_nodeDataArray selected_3 (Obj meg)).
  - exact selected_3_reachable.
  - reflexivity.
Defined.

(** X5.  No handler ever sets [skipsDiagramUpdate] to [true] or writes
    [modelData]: in every reachable component the flag is [false] and
    the model data is the constructor's. *)
Theorem flag_and_modelData_never_change (nodes : Array ObjectData) (this : App) :
  reachable nodes this ->
  skipsDiagramUpdate (state this) = false /\
  modelData (state this) = object [("canRelink", VBool false)].
Proof. intros Hr. by destruct (reachable_flags _ _ Hr) as [-> ->]. Qed.

Lemma flag_and_modelData_never_change_witness :
  skipsDiagramUpdate (state selected_3) = false /\
  modelData (state selected_3) = object [("canRelink", VBool false)].
Proof.
  apply (flag_and_modelData_never_change initial_nodeDataArray selected_3).
  exact selected_3_reachable.
Defined.

(** X6.  When several records of the collection carry the same key,
    [refreshNodeIndex] leaves the key pointing at the last of them: no
    record after the indexed position carries the key. *)
Theorem refreshNodeIndex_last_wins
    (this : App) (arr : Array ObjectData) (k : value) (p : nat) :
  indexFor (refreshNodeIndex this arr) k = Some p ->
  (exists nd, array_get arr p = Some nd /\ get_prop nd "key" = k) /\
  (forall q nd, p < q -> array_get arr q = Some nd -> get_prop nd "key" <> k).
Proof.
  intros Hk. split; [by eapply refresh_sound|].
  intros q nd. by eapply refresh_last.
Qed.

Lemma refreshNodeIndex_last_wins_witness :
  (exists nd, array_get twin_nodes 2 = Some nd /\ get_prop nd "key" = VNum 7) /\
  (forall q nd, 2 < q -> array_get twin_nodes q = Some nd ->
     get_prop nd "key" <> VNum 7).
Proof.
  apply (refreshNodeIndex_last_wins (construct []) twin_nodes (VNum 7) 2).
  reflexivity.
Defined.

(* ===================================================================== *)
(** * Edits and selections in sequence *)
(* ===================================================================== *)

(** X7.  After a committed edit that reached the store, selecting the
    edited node again changes nothing: the working copy and the record
    the store holds under its key are the same record. *)
Theorem commit_then_select
    (this : App) (path value : string) (d : ObjectData) (idx : nat)
    (e : DiagramEvent) :
  selectedData (state this) = Obj d ->
  indexFor this (get_prop (set_prop d path (VStr value)) "key") = Some idx ->
  name e = "ChangedSelection" ->
  first (subject e) = Some (Node (get_prop (set_prop d path (VStr value)) "key")) ->
  exists this1,
    handleInputChange this path value true = Normal this1 /\
    selectedData (state this1) = Obj (set_prop d path (VStr value)) /\
    array_get (nodeDataArray (state this1)) idx = Some (set_prop d path (VStr value)) /\
    handleDiagramEvent this1 e = Normal this1.
Proof.
  intros Hs Hk Hn He. eexists.
  split; [by apply (handleInputChange_blur_known _ _ _ d idx)|].
  split; [done|]. simpl. split; [apply array_get_set_eq|].
  rewrite (handleDiagramEvent_node _ _ _ idx Hn He) by exact Hk.
  simpl. by rewrite array_get_set_eq.
Qed.

Lemma commit_then_select_witness :
  exists this1,
    handleInputChange selected_3 "name" "Bob" true = Normal this1 /\
    selectedData (state this1) = Obj (set_prop meg "name" (VStr "Bob")) /\
    array_get (nodeDataArray (state this1)) 2 = Some (set_prop meg "name" (VStr "Bob")) /\
    handleDiagramEvent this1 select_3 = Normal this1.
Proof.
  apply (commit_then_select selected_3 "name" "Bob" meg 2 select_3).
  - reflexivity.
  - vm_compute. reflexivity.
  - reflexivity.
  - reflexivity.
Defined.

(** X8.  An edit that was not committed is forgotten by the next
    selection change that selects something: when the selection becomes
    empty or a node whose key the map holds, the component ends up as
    if the edit had never been made. *)
Theorem live_edit_forgotten
    (this this1 : App) (path value : string) (e : DiagramEvent) :
  handleInputChange this path value false = Normal this1 ->
  name e = "ChangedSelection" ->
  (first (subject e) = None \/
   exists k idx, first (subject e) = Some (Node k) /\ indexFor this k = Some idx) ->
  handleDiagramEvent this1 e = handleDiagramEvent this e.
Proof.
  intros Hedit Hn Hsel.
  destruct (selectedData (state this)) as [| |d] eqn:Hs;
    [rewrite handleInputChange_throws in Hedit by auto; done ..|].
  rewrite (handleInputChange_live _ _ _ _ Hs) in Hedit.
  injection Hedit as <-.
  destruct Hsel as [He|(k & idx & He & Hk)].
  - by rewrite !handleDiagramEvent_empty.
  - by rewrite !(handleDiagramEvent_node _ _ k idx).
Qed.

Lemma live_edit_forgotten_witness :
  handleDiagramEvent
    {| state := set_selectedData (state selected_3)
                  (Obj (set_prop meg "name" (VStr "Bob")));
       mapNodeKeyIdx := mapNodeKeyIdx selected_3 |} select_3
  = handleDiagramEvent selected_3 select_3.
Proof.
  apply (live_edit_forgotten selected_3 _ "name" "Bob" select_3).
  - apply (handleInputChange_live selected_3 "name" "Bob" meg). reflexivity.
  - reflexivity.
  - right. exists (VNum 3), 2. split; [reflexivity|exact constructor_indexFor_3].
Defined.

Section key_edits.
Implicit Types (this : App) (nodes : Array ObjectData).

Lemma reachable_indexed_key nodes this k idx :
  reachable nodes this -> indexFor this k = Some idx ->
  exists nd, array_get nodes idx = Some nd /\ get_prop nd "key" = k.
Proof.
  intros Hr. unfold indexFor. rewrite (reachable_index _ _ Hr).
  apply (refresh_sound _ nodes).
Qed.

(** While the working copy's key is a string that the map does not
    hold, and stays one, no edit writes the collection. *)
Lemma run_edits_detached this edits d s :
  (forall s', indexFor this (VStr s') = None) ->
  selectedData (state this) = Obj d ->
  get_prop d "key" = VStr s ->
  exists this',
    run_edits this edits = Normal this' /\
    nodeDataArray (state this') = nodeDataArray (state this).
Proof.
  revert this d s. induction edits as [|[[path value] isBlur] edits IH];
    intros this d s Hidx Hs Hk.
  - by exists this.
  - simpl.
    assert (exists s', get_prop (set_prop d path (VStr value)) "key" = VStr s')
      as [s' Hk'].
    { destruct (decide (path = "key")) as [->|Hne].
      - exists value. apply set_prop_same.
      - exists s. by rewrite set_prop_other. }
    assert (handleInputChange this path value isBlur =
            Normal {| state := set_selectedData (state this)
                                 (Obj (set_prop d path (VStr value)));
                      mapNodeKeyIdx := mapNodeKeyIdx this |}) as ->.
    { destruct isBlur.
      - apply handleInputChange_blur_unknown; [done|]. by rewrite Hk'.
      - by apply handleInputChange_live. }
    destruct (IH {| state := set_selectedData (state this)
                                (Obj (set_prop d path (VStr value)));
                     mapNodeKeyIdx := mapNodeKeyIdx this |}
                (set_prop d path (VStr value)) s') as (this' & Hrun & Harr);
      [done..|].
    exists this'. split; [done|]. by rewrite Harr.
Qed.

End key_edits.

(** X9.  When no record of the initial collection has a string for its
    key (the application's keys are numbers), an edit of the ["key"]
    field detaches the working copy from the store: that edit and every
    edit after it, committed or not, complete and leave the collection
    as it is. *)
Theorem key_edit_detaches
    (nodes : Array ObjectData) (this : App) (d : ObjectData)
    (value : string) (isBlur : bool) (rest : list (string * string * bool)) :
  reachable nodes this ->
  no_string_keys nodes ->
  selectedData (state this) = Obj d ->
  exists this',
    run_edits this (("key", value, isBlur) :: rest) = Normal this' /\
    nodeDataArray (state this') = nodeDataArray (state this).
Proof.
  intros Hr Hns Hs.
  assert (forall s', indexFor this (VStr s') = None) as Hidx.
  { intros s'. destruct (indexFor this (VStr s')) as [idx|] eqn:E; [|done].
    destruct (reachable_indexed_key _ _ _ _ Hr E) as (nd & Hnd & Hk).
    by destruct (Hns _ _ s' Hnd). }
  simpl.
  assert (handleInputChange this "key" value isBlur =
          Normal {| state := set_selectedData (state this)
                               (Obj (set_prop d "key" (VStr value)));
                    mapNodeKeyIdx := mapNodeKeyIdx this |}) as ->.
  { destruct isBlur.
    - apply handleInputChange_blur_unknown; [done|].
      by rewrite set_prop_same.
    - by apply handleInputChange_live. }
  destruct (run_edits_detached
              {| state := set_selectedData (state this)
                            (Obj (set_prop d "key" (VStr value)));
                 mapNodeKeyIdx := mapNodeKeyIdx this |}
              rest (set_prop d "key" (VStr value)) value)
    as (this' & Hrun & Harr); [done|done|apply set_prop_same|].
  exists this'. split; [done|]. by rewrite Harr.
Qed.

Lemma scenario_no_string_keys : no_string_keys scenario_nodes.
Proof.
  intros p nd s Hp.
  destruct (scenario_nodes_get _ _ Hp) as [[_ ->]|[_ ->]]; discriminate.
Qed.

Lemma key_edit_detaches_witness :
  exists this',
    run_edits scenario_2 [("key", "2", false); ("name", "B2", true)]
      = Normal this' /\
    nodeDataArray (state this') = nodeDataArray (state scenario_2).
Proof.
  apply (key_edit_detaches scenario_nodes scenario_2
           (object [("key", VNum 2); ("name", VStr "B"); ("parent", VNum 1)])
           "2" false [("name", "B2", true)]).
  - eapply reachable_diagram_event; [apply reachable_construct|].
    apply (handleDiagramEvent_node (construct scenario_nodes)
             {| name := "ChangedSelection"; subject := [Node (VNum 2)] |}
             (VNum 2) 1); reflexivity.
  - exact scenario_no_string_keys.
  - reflexivity.
Defined.

(** X10.  A committed edit of the ["key"] field to a key that another
    record has puts the working copy in that other record's place: the
    other record is gone from the collection, while the position of the
    edited record still holds it as it was. *)
Theorem key_edit_overwrites_other_record
    (nodes : Array ObjectData) (this : App) (d : ObjectData)
    (k : value) (v : string) (idx0 idx : nat) :
  reachable nodes this ->
  selectedData (state this) = Obj d ->
  get_prop d "key" = k ->
  k <> VStr v ->
  indexFor this k = Some idx0 ->
  indexFor this (VStr v) = Some idx ->
  exists this' other,
    handleInputChange this "key" v true = Normal this' /\
    array_get (nodeDataArray (state this)) idx = Some other /\
    get_prop other "key" = VStr v /\
    array_get (nodeDataArray (state this')) idx = Some (set_prop d "key" (VStr v)) /\
    idx <> idx0 /\
    array_get (nodeDataArray (state this')) idx0 =
      array_get (nodeDataArray (state this)) idx0.
Proof.
  intros Hr Hs Hkey Hne Hk0 Hk.
  destruct (reachable_store_ok _ _ Hr) as [Hv _].
  destruct (Hv _ _ Hk) as (other & Hother & Hok).
  destruct (Hv _ _ Hk0) as (mine & Hmine & Hmk).
  assert (idx <> idx0) as Hidx by (intros ->; congruence).
  eexists. exists other.
  split.
  { apply (handleInputChange_blur_known _ _ _ d idx); [done|].
    by rewrite set_prop_same. }
  simpl. split; [done|]. split; [done|].
  split; [apply array_get_set_eq|]. split; [done|].
  by apply array_get_set_ne.
Qed.

Lemma lettered_a_reachable : reachable lettered_nodes lettered_a.
Proof.
  eapply reachable_diagram_event; [apply reachable_construct|].
  apply (handleDiagramEvent_node (construct lettered_nodes)
           {| name := "ChangedSelection"; subject := [Node (VStr "a")] |}
           (VStr "a") 0); reflexivity.
Qed.

Lemma key_edit_overwrites_other_record_witness :
  exists this' other,
    handleInputChange lettered_a "key" "b" true = Normal this' /\
    array_get (nodeDataArray (state lettered_a)) 1 = Some other /\
    get_prop other "key" = VStr "b" /\
    array_get (nodeDataArray (state this')) 1 =
      Some (set_prop (object [("key", VStr "a"); ("name", VStr "Ann")])
              "key" (VStr "b")) /\
    1 <> 0 /\
    array_get (nodeDataArray (state this')) 0 =
      array_get (nodeDataArray (state lettered_a)) 0.
Proof.
  apply (key_edit_overwrites_other_record lettered_nodes lettered_a
           (object [("key", VStr "a"); ("name", VStr "Ann")]) (VStr "a") "b" 0 1).
  - exact lettered_a_reachable.
  - reflexivity.
  - reflexivity.
  - discriminate.
  - reflexivity.
  - reflexivity.
Defined.

Import Diagram.

Section visual_tree.
Implicit Types (d : Diagram) (objs : list GraphObject) (c h : nat).

Lemma find_named_set_named_text oname txt objs :
  is_Some (find_named oname objs) ->
  find_named oname (set_named_text oname txt objs) =
  Some {| obj_name := oname; obj_text := txt |}.
Proof.
  induction objs as [|o objs IH]; simpl; intros [b Hb]; [done|].
  case_decide as Ho.
  - simpl. rewrite decide_True by done. by rewrite Ho.
  - simpl. rewrite decide_False by done. apply IH. by exists b.
Qed.

Lemma nodes_set_text_ne d c h oname txt :
  h <> c -> nodes (set_text d c oname txt) !! h = nodes d !! h.
Proof.
  intros Hne. unfold set_text; simpl.
  destruct (nodes d !! c); [|done]. by rewrite list_lookup_insert_ne.
Qed.

Lemma findObject_set_text_ne d c h oname txt oname' :
  h <> c -> findObject (set_text d c oname txt) h oname' = findObject d h oname'.
Proof. intros Hne. unfold findObject. by rewrite nodes_set_text_ne. Qed.

Lemma findObject_set_text_eq d c oname txt :
  is_Some (findObject d c oname) ->
  findObject (set_text d c oname txt) c oname =
  Some {| obj_name := oname; obj_text := txt |}.
Proof.
  unfold findObject, set_text; simpl.
  destruct (nodes d !! c) as [n|] eqn:Hn; simpl; [|by intros [? ?]].
  intros Hb. rewrite list_lookup_insert_eq by (by eapply lookup_lt_Some).
  simpl. by apply find_named_set_named_text.
Qed.

(** Writing a text keeps every node's data record and children. *)
Lemma set_text_data d c oname txt h n :
  nodes d !! h = Some n ->
  exists n', nodes (set_text d c oname txt) !! h = Some n' /\
             data n' = data n /\ treeChildren n' = treeChildren n.
Proof.
  intros Hh. destruct (decide (h = c)) as [->|Hne].
  - unfold set_text; simpl. rewrite Hh.
    rewrite list_lookup_insert_eq by (by eapply lookup_lt_Some).
    by eexists.
  - rewrite nodes_set_text_ne by done. by exists n.
Qed.

Lemma has_boss_set_text d c h :
  has_boss d h -> has_boss (set_text d c "boss" "") h.
Proof.
  intros Hb. unfold has_boss. destruct (decide (h = c)) as [->|Hne].
  - by rewrite findObject_set_text_eq.
  - by rewrite findObject_set_text_ne.
Qed.

Lemma no_boss_set_text d c h :
  has_boss d c -> findObject d h "boss" = None ->
  findObject (set_text d c "boss" "") h "boss" = None.
Proof.
  intros Hc Hh. destruct (decide (h = c)) as [->|Hne].
  - destruct Hc as [b Hb]. congruence.
  - by rewrite findObject_set_text_ne.
Qed.

Lemma boss_cleared_set_text d c h :
  has_boss d c -> boss_cleared d h -> boss_cleared (set_text d c "boss" "") h.
Proof.
  intros Hc Hh. unfold boss_cleared. destruct (decide (h = c)) as [->|Hne].
  - rewrite findObject_set_text_eq by done. by eexists.
  - by rewrite findObject_set_text_ne.
Qed.

Lemma boss_cleared_here d c :
  has_boss d c -> boss_cleared (set_text d c "boss" "") c.
Proof.
  intros Hc. unfold boss_cleared.
  rewrite findObject_set_text_eq by done. by eexists.
Qed.

Lemma loop_frame_nil d : loop_frame [] d d.
Proof.
  split; [by intros c Hc%elem_of_nil|]. split; [done|].
  split; [|done]. intros h n Hn. by exists n.
Qed.

Lemma loop_frame_cons c visited d d' :
  loop_frame visited (set_text d c "boss" "") d' ->
  boss_cleared d' c ->
  loop_frame (c :: visited) d d'.
Proof.
  intros (Hcl & Hfr & Hdata & Ho & Hco) Hc.
  split; [|split; [|split; [|done]]].
  - intros x [->|Hx]%elem_of_cons; [done|by apply Hcl].
  - intros h Hh. apply not_elem_of_cons in Hh as [Hne Hh].
    rewrite Hfr by done. by apply nodes_set_text_ne.
  - intros h n Hn.
    destruct (set_text_data d c "boss" "" h n Hn) as (n1 & Hn1 & Hd1 & Ht1).
    destruct (Hdata _ _ Hn1) as (n2 & Hn2 & Hd2 & Ht2).
    exists n2. split; [done|]. split; congruence.
Qed.

(** The loop runs to its end when every child has the object. *)
Lemma clear_children_exhausted it d :
  Forall (has_boss d) it ->
  exists d',
    clear_children it d = Exhausted d' /\
    loop_frame it d d' /\
    (forall x, boss_cleared d x -> boss_cleared d' x).
Proof.
  revert d. induction it as [|c it IH]; intros d Hall.
  - exists d. split; [done|]. split; [apply loop_frame_nil|done].
  - apply Forall_cons in Hall as [Hc Hall]. simpl.
    destruct Hc as [b Hb]. rewrite Hb.
    destruct (IH (set_text d c "boss" "")) as (d' & Hrun & Hfr & Hkeep).
    { eapply Forall_impl; [exact Hall|]. intros h. apply has_boss_set_text. }
    exists d'. split; [done|]. split.
    + apply loop_frame_cons; [done|].
      apply Hkeep, boss_cleared_here. by exists b.
    + intros x Hx. apply Hkeep, boss_cleared_set_text; [by exists b|done].
Qed.

(** The loop leaves the listener at the first child without the
    object. *)
Lemma clear_children_returned pre c post d :
  Forall (has_boss d) pre ->
  findObject d c "boss" = None ->
  exists d',
    clear_children (pre ++ c :: post) d = Returned d' /\
    loop_frame pre d d' /\
    (forall x, boss_cleared d x -> boss_cleared d' x).
Proof.
  revert d. induction pre as [|p pre IH]; intros d Hall Hnone.
  - exists d. simpl. rewrite Hnone.
    split; [done|]. split; [apply loop_frame_nil|done].
  - apply Forall_cons in Hall as [Hp Hall]. simpl.
    destruct Hp as [b Hb]. rewrite Hb.
    destruct (IH (set_text d p "boss" "")) as (d' & Hrun & Hfr & Hkeep).
    { eapply Forall_impl; [exact Hall|]. intros h. apply has_boss_set_text. }
    { apply no_boss_set_text; [by exists b|done]. }
    exists d'. split; [done|]. split.
    + apply loop_frame_cons; [done|].
      apply Hkeep, boss_cleared_here. by exists b.
    + intros x Hx. apply Hkeep, boss_cleared_set_text; [by exists b|done].
Qed.

(** The first child without the object splits the iteration. *)
Lemma first_without_boss d (l : list nat) :
  Exists (fun c => findObject d c "boss" = None) l ->
  exists pre c post,
    l = pre ++ c :: post /\ Forall (has_boss d) pre /\
    findObject d c "boss" = None.
Proof.
  induction l as [|a l IH]; intros Hex; [by apply Exists_nil in Hex|].
  destruct (findObject d a "boss") as [b|] eqn:Ha.
  - apply Exists_cons in Hex as [Hex|Hex]; [congruence|].
    destruct (IH Hex) as (pre & c & post & -> & Hpre & Hc).
    exists (a :: pre), c, post. split; [done|]. split; [|done].
    constructor; [by exists b|done].
  - exists [], a, l. split; [done|]. split; [constructor|done].
Qed.

End visual_tree.

(** The node template of this wrapper names no object ["boss"]. *)
Lemma nodeTemplate_no_boss : find_named "boss" nodeTemplate = None.
Proof. reflexivity. Qed.

(** Hence, in a diagram whose nodes are made from the template,
    deleting a node that has a child only opens the transaction. *)
Lemma SelectionDeleting_template_nodes (d : Diagram) (h : nat) (n : Node)
    (c : nat) (rest : list nat) (subject : list Part) :
  head subject = Some (NodePart h) ->
  nodes d !! h = Some n ->
  treeChildren n = c :: rest ->
  (forall x nx, nodes d !! x = Some nx -> objects nx = nodeTemplate) ->
  SelectionDeleting subject d = Normal (startTransaction "clear boss" d).
Proof.
  intros Hs Hh Hch Htpl. unfold SelectionDeleting. rewrite Hs.
  unfold findTreeChildrenNodes; simpl. rewrite Hh, Hch. simpl.
  unfold findObject; simpl.
  destruct (nodes d !! c) as [nc|] eqn:Hc; simpl; [|done].
  by rewrite (Htpl _ _ Hc).
Qed.

(** What the listener does for a node whose tree children all have an
    object named ["boss"], as the nodes of the class wrapper's template
    would: that object is emptied in every child, the data records are
    left alone, and the transaction is committed. *)
Lemma SelectionDeleting_clears_named_boss
    (subject : list Part) (d : Diagram) (h : nat) (n : Node) :
  head subject = Some (NodePart h) ->
  nodes d !! h = Some n ->
  Forall (has_boss d) (treeChildren n) ->
  exists d',
    SelectionDeleting subject d = Normal d' /\
    (forall c, c ∈ treeChildren n -> boss_cleared d' c) /\
    (forall x nx, nodes d !! x = Some nx ->
       exists nx', nodes d' !! x = Some nx' /\ data nx' = data nx /\
                   get_prop (data nx') "parent" = get_prop (data nx) "parent") /\
    openTransactions d' = openTransactions d /\
    committed d' = committed d ++ ["clear boss"].
Proof.
  intros Hs Hh Hall. unfold SelectionDeleting. rewrite Hs.
  unfold findTreeChildrenNodes; simpl. rewrite Hh.
  destruct (clear_children_exhausted (treeChildren n)
              (startTransaction "clear boss" d) Hall)
    as (d1 & -> & (Hcl & _ & Hdata & Ho & Hco) & _).
  eexists. split; [done|].
  unfold commitTransaction. rewrite Ho. simpl.
  split; [exact Hcl|]. split; [|by rewrite Hco].
  intros x nx Hx. destruct (Hdata x nx Hx) as (nx' & Hx' & Hd & _).
  exists nx'. split; [done|]. split; [done|]. by rewrite Hd.
Qed.

(** C8.  The claim does not hold of the program.  In the diagram that
    this wrapper builds, every node comes from its node template, which
    names no object ["boss"].  Deleting the node of key 2, whose
    children are the nodes of keys 5 and 6 with [parent: 2], the
    listener returns at the first child: no child has a cleared boss
    text afterwards, the data records are as before, and the
    ["clear boss"] transaction is left open, never committed. *)
Theorem SelectionDeleting_boss_not_cleared :
  findTreeChildrenNodes template_diagram 0 = [1; 2] /\
  SelectionDeleting [NodePart 0] template_diagram =
    Normal (startTransaction "clear boss" template_diagram) /\
  (forall c, c ∈ [1; 2] ->
     findObject (startTransaction "clear boss" template_diagram) c "boss" = None /\
     ~ boss_cleared (startTransaction "clear boss" template_diagram) c) /\
  nodes (startTransaction "clear boss" template_diagram) = nodes template_diagram /\
  openTransactions (startTransaction "clear boss" template_diagram) = ["clear boss"] /\
  committed (startTransaction "clear boss" template_diagram) = [].
Proof.
  split; [reflexivity|]. split; [reflexivity|].
  split; [|by repeat split].
  intros c Hc.
  assert (findObject (startTransaction "clear boss" template_diagram) c "boss" = None)
    as Hnone.
  { apply elem_of_cons in Hc as [->|Hc]; [reflexivity|].
    apply list_elem_of_singleton in Hc as ->. reflexivity. }
  split; [exact Hnone|]. intros (b & Hb & _). congruence.
Qed.

(** C10.  When the deleted part is a node and one of its tree children
    has no object named ["boss"], the listener completes at the first
    such child [c] of the iteration: every node that was not visited
    before [c], the children still to come among them, is what it was,
    so that their ["boss"] objects read as before; and the
    ["clear boss"] transaction stays open and is not committed. *)
Theorem SelectionDeleting_returns_at_missing_boss
    (subject : list Part) (d : Diagram) (h : nat) (n : Node) :
  head subject = Some (NodePart h) ->
  nodes d !! h = Some n ->
  Exists (fun c => findObject d c "boss" = None) (treeChildren n) ->
  exists pre c post d',
    treeChildren n = pre ++ c :: post /\
    Forall (has_boss d) pre /\
    findObject d c "boss" = None /\
    SelectionDeleting subject d = Normal d' /\
    (forall x, x ∉ pre -> nodes d' !! x = nodes d !! x) /\
    (forall x, x ∈ post -> x ∉ pre ->
       findObject d' x "boss" = findObject d x "boss") /\
    (forall x, x ∈ pre -> boss_cleared d' x) /\
    openTransactions d' = "clear boss" :: openTransactions d /\
    committed d' = committed d.
Proof.
  intros Hs Hh Hex.
  destruct (first_without_boss _ _ Hex) as (pre & c & post & Hch & Hpre & Hc).
  exists pre, c, post.
  unfold SelectionDeleting. rewrite Hs.
  unfold findTreeChildrenNodes; simpl. rewrite Hh, Hch.
  destruct (clear_children_returned pre c post
              (startTransaction "clear boss" d) Hpre Hc)
    as (d1 & -> & (Hcl & Hfr & _ & Ho & Hco) & _).
  exists d1. do 4 (split; [done|]). split; [exact Hfr|].
  split; [|split; [exact Hcl|by split]].
  intros x _ Hx. unfold findObject. by rewrite (Hfr x Hx).
Qed.

Lemma SelectionDeleting_returns_at_missing_boss_witness :
  exists pre c post d',
    [1; 2] = pre ++ c :: post /\
    Forall (has_boss mixed_diagram) pre /\
    findObject mixed_diagram c "boss" = None /\
    SelectionDeleting [NodePart 0] mixed_diagram = Normal d' /\
    (forall x, x ∉ pre -> nodes d' !! x = nodes mixed_diagram !! x) /\
    (forall x, x ∈ post -> x ∉ pre ->
       findObject d' x "boss" = findObject mixed_diagram x "boss") /\
    (forall x, x ∈ pre -> boss_cleared d' x) /\
    openTransactions d' = ["clear boss"] /\
    committed d' = [].
Proof.
  apply (SelectionDeleting_returns_at_missing_boss [NodePart 0] mixed_diagram 0
           (template_node (object [("key", VNum 2); ("name", VStr "Luke Warm")]) [1; 2])).
  - reflexivity.
  - reflexivity.
  - apply Exists_cons_hd. reflexivity.
Defined.

(* ===================================================================== *)
(** * What the listener writes *)
(* ===================================================================== *)

Section listener_frame.
Implicit Types (d : Diagram) (n : Node) (objs : list GraphObject).

Lemma same_but_boss_text_refl n : same_but_boss_text n n.
Proof.
  split; [done|]. split; [done|].
  apply Forall_Forall2_diag, Forall_forall. intros o _. by split; [|left].
Qed.

Lemma same_but_boss_text_trans n1 n2 n3 :
  same_but_boss_text n1 n2 -> same_but_boss_text n2 n3 ->
  same_but_boss_text n1 n3.
Proof.
  intros (Hd1 & Ht1 & Ho1) (Hd2 & Ht2 & Ho2).
  split; [congruence|]. split; [congruence|].
  eapply Forall2_trans; [|exact Ho1|exact Ho2].
  intros o1 o2 o3 [Hn1 Hx1] [Hn2 Hx2]. split; [congruence|].
  destruct Hx2 as [Hx2|[Hb2 Hx2]].
  - destruct Hx1 as [Hx1|[Hb1 Hx1]]; [left; congruence|right].
    split; [done|congruence].
  - right. split; [congruence|done].
Qed.

Lemma only_boss_texts_refl d : only_boss_texts d d.
Proof.
  apply Forall_Forall2_diag, Forall_forall. intros n _.
  apply same_but_boss_text_refl.
Qed.

Lemma only_boss_texts_trans d1 d2 d3 :
  only_boss_texts d1 d2 -> only_boss_texts d2 d3 -> only_boss_texts d1 d3.
Proof.
  intros H1 H2. eapply Forall2_trans; [|exact H1|exact H2].
  apply same_but_boss_text_trans.
Qed.

Lemma set_named_text_boss objs :
  Forall2 (fun o o' =>
             obj_name o' = obj_name o /\
             (obj_text o' = obj_text o \/
              (obj_name o = "boss" /\ obj_text o' = "")))
          objs (set_named_text "boss" "" objs).
Proof.
  induction objs as [|o objs IH]; simpl; [constructor|].
  case_decide as Ho.
  - constructor; [by split; [|right]|].
    apply Forall_Forall2_diag, Forall_forall. intros o' _. by split; [|left].
  - constructor; [by split; [|left]|done].
Qed.

Lemma set_text_only_boss d c : only_boss_texts d (set_text d c "boss" "").
Proof.
  unfold only_boss_texts, set_text; simpl.
  destruct (nodes d !! c) as [n|] eqn:Hc; [|apply only_boss_texts_refl].
  apply Forall2_same_length_lookup. split; [by rewrite length_insert|].
  intros i x y Hx Hy. destruct (decide (i = c)) as [->|Hne].
  - rewrite list_lookup_insert_eq in Hy by (by eapply lookup_lt_Some).
    simplify_eq. split; [done|]. split; [done|]. apply set_named_text_boss.
  - rewrite list_lookup_insert_ne in Hy by done. simplify_eq.
    apply same_but_boss_text_refl.
Qed.

Lemma clear_children_only_boss it d :
  match clear_children it d with
  | Exhausted d' | Returned d' =>
      only_boss_texts d d' /\
      openTransactions d' = openTransactions d /\
      committed d' = committed d
  end.
Proof.
  revert d. induction it as [|c it IH]; intros d; simpl.
  - split; [apply only_boss_texts_refl|done].
  - destruct (findObject d c "boss") as [b|].
    + specialize (IH (set_text d c "boss" "")).
      destruct (clear_children it (set_text d c "boss" "")) as [d'|d'];
        destruct IH as (Hn & Ho & Hc);
        (split; [|done]);
        (eapply only_boss_texts_trans; [apply set_text_only_boss|done]).
    + split; [apply only_boss_texts_refl|done].
Qed.

End listener_frame.

(** X11.  Whatever is selected, when the listener completes it has
    written nothing but texts of objects named ["boss"], which it
    empties: the diagram has the same nodes, each with its data record,
    its children and the names of its objects, and every other text as
    before.  The ["clear boss"] transaction is then either committed or
    left open, and no other transaction is touched. *)
Theorem SelectionDeleting_only_clears_boss_texts
    (subject : list Part) (d d' : Diagram) :
  SelectionDeleting subject d = Normal d' ->
  only_boss_texts d d' /\
  ((openTransactions d' = openTransactions d /\
    committed d' = committed d ++ ["clear boss"]) \/
   (openTransactions d' = "clear boss" :: openTransactions d /\
    committed d' = committed d)).
Proof.
  unfold SelectionDeleting. intros Hrun.
  destruct (head subject) as [[h|l|]|].
  - pose proof (clear_children_only_boss
                  (findTreeChildrenNodes (startTransaction "clear boss" d) h)
                  (startTransaction "clear boss" d)) as Hloop.
    destruct (clear_children _ _) as [d1|d1];
      destruct Hloop as (Hn & Ho & Hc); injection Hrun as <-.
    + unfold commitTransaction. rewrite Ho. simpl.
      split; [exact Hn|]. left. by rewrite Hc.
    + split; [exact Hn|]. right. by split.
  - destruct (toNode l) as [c|]; [|done].
    destruct (findObject _ c "boss") as [b|]; injection Hrun as <-.
    + split; [exact (set_text_only_boss d c)|]. by left.
    + split; [exact (only_boss_texts_refl d)|]. by right.
  - injection Hrun as <-. split; [exact (only_boss_texts_refl d)|]. by left.
  - injection Hrun as <-. split; [exact (only_boss_texts_refl d)|]. by left.
Qed.

Lemma SelectionDeleting_only_clears_boss_texts_witness :
  only_boss_texts mixed_diagram (startTransaction "clear boss" mixed_diagram) /\
  ((openTransactions (startTransaction "clear boss" mixed_diagram) = [] /\
    committed (startTransaction "clear boss" mixed_diagram) = [] ++ ["clear boss"]) \/
   (openTransactions (startTransaction "clear boss" mixed_diagram) = ["clear boss"] /\
    committed (startTransaction "clear boss" mixed_diagram) = [])).
Proof.
  apply (SelectionDeleting_only_clears_boss_texts [NodePart 0] mixed_diagram).
  reflexivity.
Defined.

(** X12.  When the deleted part is a link: if its [toNode] is [null] the
    listener throws; if the target node has an object named ["boss"],
    that object is emptied, no other node is written and the
    transaction is committed; if it has none, the listener returns with
    the transaction open and nothing else changed. *)
Theorem SelectionDeleting_link
    (subject : list Part) (d : Diagram) (l : Link) :
  head subject = Some (LinkPart l) ->
  match toNode l with
  | None => SelectionDeleting subject d = Throw TypeError
  | Some c =>
      (has_boss d c ->
       exists d',
         SelectionDeleting subject d = Normal d' /\
         boss_cleared d' c /\
         (forall x, x <> c -> nodes d' !! x = nodes d !! x) /\
         openTransactions d' = openTransactions d /\
         committed d' = committed d ++ ["clear boss"]) /\
      (findObject d c "boss" = None ->
       SelectionDeleting subject d = Normal (startTransaction "clear boss" d))
  end.
Proof.
  intros Hs. unfold SelectionDeleting. rewrite Hs.
  destruct (toNode l) as [c|]; [|done]. split.
  - intros Hb.
    change (findObject (startTransaction "clear boss" d) c "boss")
      with (findObject d c "boss").
    destruct Hb as [b Hb]. rewrite Hb. eexists. split; [done|].
    unfold commitTransaction; simpl.
    split; [apply (boss_cleared_here (startTransaction "clear boss" d));
            by exists b|].
    split; [|done]. intros x Hx.
    by apply (nodes_set_text_ne (startTransaction "clear boss" d)).
  - intros Hnone.
    change (findObject (startTransaction "clear boss" d) c "boss")
      with (findObject d c "boss").
    by rewrite Hnone.
Qed.

Lemma SelectionDeleting_link_witness :
  (has_boss boss_diagram 2 ->
   exists d',
     SelectionDeleting [LinkPart {| toNode := Some 2 |}] boss_diagram = Normal d' /\
     boss_cleared d' 2 /\
     (forall x, x <> 2 -> nodes d' !! x = nodes boss_diagram !! x) /\
     openTransactions d' = [] /\
     committed d' = ["clear boss"]) /\
  (findObject boss_diagram 2 "boss" = None ->
   SelectionDeleting [LinkPart {| toNode := Some 2 |}] boss_diagram =
     Normal (startTransaction "clear boss" boss_diagram)).
Proof.
  apply (SelectionDeleting_link [LinkPart {| toNode := Some 2 |}] boss_diagram
           {| toNode := Some 2 |}).
  reflexivity.
Defined.

(** X13.  In a diagram whose nodes are all made from the node template
    that this wrapper defines, which names no object ["boss"], deleting
    a node that has a child only opens the ["clear boss"] transaction:
    nothing is cleared and the transaction is not committed. *)
Theorem SelectionDeleting_template_diagram
    (d : Diagram) (h : nat) (n : Node) (c : nat) (rest : list nat)
    (subject : list Part) :
  head subject = Some (NodePart h) ->
  nodes d !! h = Some n ->
  treeChildren n = c :: rest ->
  (forall x nx, nodes d !! x = Some nx -> objects nx = nodeTemplate) ->
  SelectionDeleting subject d = Normal (startTransaction "clear boss" d).
Proof. apply SelectionDeleting_template_nodes. Qed.

Lemma template_diagram_nodes x nx :
  nodes template_diagram !! x = Some nx -> objects nx = nodeTemplate.
Proof. destruct x as [|[|[|x]]]; intros [= <-]; reflexivity. Qed.

Lemma SelectionDeleting_template_diagram_witness :
  SelectionDeleting [NodePart 0] template_diagram =
  Normal (startTransaction "clear boss" template_diagram).
Proof.
  apply (SelectionDeleting_template_diagram template_diagram 0
           (template_node (object [("key", VNum 2); ("name", VStr "Luke Warm")]) [1; 2])
           1 [2]).
  - reflexivity.
  - reflexivity.
  - reflexivity.
  - exact template_diagram_nodes.
Defined.

(* ===================================================================== *)
(** * The title of the page *)
(* ===================================================================== *)

Import Page.

Section title_facts.
Implicit Types (s t : string) (c : Ascii.ascii).

Lemma indexOf_bounds c s : (-1 <= indexOf c s < Z.of_nat (String.length s))%Z.
Proof.
  induction s as [|a s IH]; simpl; [lia|].
  case_decide; [lia|]. destruct (Z.ltb_spec (indexOf c s) 0); lia.
Qed.

(** The part of a string before the first occurrence of [c] has no
    [c]. *)
Lemma indexOf_prefix c s :
  (0 <= indexOf c s)%Z ->
  indexOf c (substr s 0 (Z.to_nat (indexOf c s))) = (-1)%Z.
Proof.
  unfold substr. induction s as [|a s IH]; simpl; [lia|].
  case_decide as Ha; [done|].
  destruct (Z.ltb_spec (indexOf c s) 0) as [Hlt|Hge]; [lia|]. intros _.
  replace (Z.to_nat (indexOf c s + 1)) with (S (Z.to_nat (indexOf c s))) by lia.
  simpl. rewrite decide_False by done. by rewrite IH.
Qed.

(** The string is that part, followed by [c] and the rest. *)
Lemma indexOf_split c s :
  (0 <= indexOf c s)%Z ->
  exists rest, s = substr s 0 (Z.to_nat (indexOf c s)) +:+ String c rest.
Proof.
  unfold substr. induction s as [|a s IH]; simpl; [lia|].
  case_decide as Ha.
  - intros _. exists s. by rewrite Ha.
  - destruct (Z.ltb_spec (indexOf c s) 0) as [Hlt|Hge]; [lia|]. intros _.
    replace (Z.to_nat (indexOf c s + 1)) with (S (Z.to_nat (indexOf c s))) by lia.
    destruct (IH Hge) as [rest Hrest]. exists rest.
    rewrite Hrest at 1. reflexivity.
Qed.

Lemma indexOf_append c s :
  (indexOf c s < 0)%Z -> indexOf c (s +:+ String c "") = Z.of_nat (String.length s).
Proof.
  induction s as [|a s IH]; simpl.
  - intros _. by rewrite decide_True.
  - case_decide as Ha; [lia|].
    destruct (Z.ltb_spec (indexOf c s) 0) as [Hlt|Hge]; [|lia]. intros _.
    rewrite IH by done. destruct (Z.ltb_spec (Z.of_nat (String.length s)) 0); lia.
Qed.

Lemma substr_append s t :
  substr (s +:+ t) 0 (String.length s) = s.
Proof.
  unfold substr. induction s as [|a s IH]; simpl; [by destruct t|].
  by rewrite IH.
Qed.

Lemma indexOf_cons c (a : Ascii.ascii) s :
  (0 <= indexOf c (String a s))%Z <-> a = c \/ (0 <= indexOf c s)%Z.
Proof.
  simpl. case_decide as Ha.
  - split; [by left|lia].
  - destruct (Z.ltb_spec (indexOf c s) 0);
      (split; [intros ?; right; lia|intros [?|?]; [done|lia]]).
Qed.

(** Collapsing whitespace neither brings in nor takes out a character
    that is not whitespace. *)
Lemma indexOf_collapse_from c st s :
  is_ascii_whitespace c = false ->
  (0 <= indexOf c (collapse_from st s))%Z <-> (0 <= indexOf c s)%Z.
Proof.
  intros Hc.
  assert (c <> " "%char) as Hsp by (intros ->; discriminate).
  revert st. induction s as [|a s IH]; intros st; [done|].
  simpl collapse_from. destruct (is_ascii_whitespace a) eqn:Ha.
  - rewrite IH, indexOf_cons.
    split; [by right|]. intros [->|?]; [congruence|done].
  - destruct st; rewrite ?indexOf_cons, IH; [done|done|].
    split; [intros [?|?]; [congruence|done]|by right].
Qed.

Lemma collapse_from_again st s :
  st <> AtStart -> collapse_from InWord (collapse_from st s) = collapse_from st s.
Proof.
  revert st. induction s as [|a s IH]; intros st Hst; [done|].
  simpl. destruct (is_ascii_whitespace a) eqn:Ha.
  - destruct st; [done|by apply IH..].
  - destruct st; [done| |]; simpl; rewrite ?Ha; simpl; by rewrite IH.
Qed.

(** Stripping and collapsing twice is the same as once. *)
Lemma strip_and_collapse_idemp s :
  strip_and_collapse (strip_and_collapse s) = strip_and_collapse s.
Proof.
  unfold strip_and_collapse. induction s as [|a s IH]; [done|].
  simpl. destruct (is_ascii_whitespace a) eqn:Ha; [done|].
  simpl. rewrite Ha. by rewrite collapse_from_again.
Qed.

Lemma collapse_from_star st s :
  st <> AtStart ->
  collapse_from InWord (collapse_from st s +:+ "*") = collapse_from st s +:+ "*".
Proof.
  revert st. induction s as [|a s IH]; intros st Hst; [done|].
  simpl. destruct (is_ascii_whitespace a) eqn:Ha.
  - destruct st; [done|by apply IH..].
  - destruct st; [done| |]; simpl; rewrite ?Ha; simpl; by rewrite IH.
Qed.

(** A stripped and collapsed string followed by a star is stripped and
    collapsed. *)
Lemma strip_and_collapse_star s :
  strip_and_collapse (strip_and_collapse s +:+ "*") = strip_and_collapse s +:+ "*".
Proof.
  unfold strip_and_collapse. induction s as [|a s IH]; [done|].
  simpl. destruct (is_ascii_whitespace a) eqn:Ha; [done|].
  simpl. rewrite Ha. by rewrite collapse_from_star.
Qed.

Lemma Document_eq (doc1 doc2 : Document) :
  title doc1 = title doc2 -> SaveButton doc1 = SaveButton doc2 -> doc1 = doc2.
Proof. destruct doc1, doc2; simpl; congruence. Qed.

Lemma Modified_title (isModified : bool) (doc : Document) :
  title (Modified isModified doc) =
  let idx := indexOf "*"%char (document_title doc) in
  if isModified then
    if (idx <? 0)%Z then document_title doc +:+ "*" else title doc
  else
    if (0 <=? idx)%Z then substr (document_title doc) 0 (Z.to_nat idx)
    else title doc.
Proof.
  unfold Modified, document_title.
  destruct (SaveButton doc), isModified; simpl; by repeat case_match.
Qed.

Lemma Modified_SaveButton (isModified : bool) (doc : Document) :
  SaveButton (Modified isModified doc) =
  match SaveButton doc with
  | Some _ => Some (negb isModified)
  | None => None
  end.
Proof.
  unfold Modified.
  destruct (SaveButton doc) eqn:Hb, isModified; simpl;
    repeat case_match; simpl; done.
Qed.

Lemma star_read_or_stored (doc : Document) :
  (0 <= indexOf "*"%char (document_title doc))%Z <->
  (0 <= indexOf "*"%char (title doc))%Z.
Proof. by apply indexOf_collapse_from. Qed.

Lemma Modified_star (isModified : bool) (doc : Document) :
  (0 <= indexOf "*"%char (title (Modified isModified doc)))%Z <-> isModified = true.
Proof.
  rewrite Modified_title. simpl.
  pose proof (indexOf_bounds "*"%char (document_title doc)) as Hb.
  pose proof (star_read_or_stored doc) as Hrs.
  destruct isModified.
  - split; [done|]. intros _.
    destruct (Z.ltb_spec (indexOf "*"%char (document_title doc)) 0) as [Hlt|Hge].
    + rewrite indexOf_append by done. lia.
    + by apply Hrs.
  - split; [|done].
    destruct (Z.leb_spec 0 (indexOf "*"%char (document_title doc))) as [Hge|Hlt].
    + rewrite indexOf_prefix by done. lia.
    + intros Hstored. apply Hrs in Hstored. lia.
Qed.

End title_facts.

(** X14.  After the listener has run, the title has a star exactly when
    the diagram is modified; this holds of the text of the [title]
    element and of [document.title] as it is read. *)
Theorem Modified_star_iff_modified (isModified : bool) (doc : Document) :
  ((0 <= indexOf "*"%char (title (Modified isModified doc)))%Z <-> isModified = true) /\
  ((0 <= indexOf "*"%char (document_title (Modified isModified doc)))%Z <->
   isModified = true).
Proof.
  split; [apply Modified_star|].
  rewrite star_read_or_stored. apply Modified_star.
Qed.

(** X15.  Running the listener again without a change of
    [isModified] changes nothing. *)
Theorem Modified_idempotent (isModified : bool) (doc : Document) :
  Modified isModified (Modified isModified doc) = Modified isModified doc.
Proof.
  apply Document_eq.
  - rewrite (Modified_title isModified (Modified isModified doc)). simpl.
    pose proof (Modified_star isModified doc) as Hstar.
    rewrite <- star_read_or_stored in Hstar.
    destruct isModified.
    + destruct (Z.ltb_spec (indexOf "*"%char (document_title (Modified true doc))) 0)
        as [Hlt|]; [|done].
      pose proof (proj2 Hstar eq_refl). lia.
    + destruct (Z.leb_spec 0 (indexOf "*"%char (document_title (Modified false doc))))
        as [Hge|]; [|done].
      by pose proof (proj1 Hstar Hge).
  - rewrite !Modified_SaveButton. by destruct (SaveButton doc).
Qed.

(** X16.  For a title that reads without a star, marking the page
    modified and then unmodified gives a title that reads the same.  A
    title that reads with a star of its own is cut at its first star
    when the page becomes unmodified: the part before the star is
    assigned, and the title then reads as that part with its whitespace
    stripped and collapsed. *)
Theorem Modified_round_trip (doc : Document) :
  ((indexOf "*"%char (document_title doc) < 0)%Z ->
   document_title (Modified false (Modified true doc)) = document_title doc) /\
  ((0 <= indexOf "*"%char (document_title doc))%Z ->
   exists before rest,
     document_title doc = before +:+ "*" +:+ rest /\
     (indexOf "*"%char before < 0)%Z /\
     title (Modified false doc) = before /\
     document_title (Modified false doc) = strip_and_collapse before).
Proof.
  split.
  - intros Hno.
    assert (document_title (Modified true doc) = document_title doc +:+ "*") as Hread.
    { unfold document_title at 1. rewrite (Modified_title true). cbv zeta.
      destruct (Z.ltb_spec (indexOf "*"%char (document_title doc)) 0); [|lia].
      apply strip_and_collapse_star. }
    unfold document_title at 1.
    rewrite (Modified_title false). cbv zeta. rewrite Hread.
    rewrite indexOf_append by done.
    destruct (Z.leb_spec 0 (Z.of_nat (String.length (document_title doc)))); [|lia].
    rewrite Nat2Z.id, substr_append. apply strip_and_collapse_idemp.
  - intros Hstar.
    destruct (indexOf_split "*"%char (document_title doc) Hstar) as [rest Hrest].
    exists (substr (document_title doc) 0
              (Z.to_nat (indexOf "*"%char (document_title doc)))), rest.
    assert (title (Modified false doc) =
            substr (document_title doc) 0
              (Z.to_nat (indexOf "*"%char (document_title doc)))) as Ht.
    { rewrite (Modified_title false). cbv zeta.
      by destruct (Z.leb_spec 0 (indexOf "*"%char (document_title doc))); [|lia]. }
    split; [done|]. split; [|split; [done|]].
    + pose proof (indexOf_prefix "*"%char (document_title doc) Hstar). lia.
    + unfold document_title at 1. by rewrite Ht.
Qed.

Lemma Modified_round_trip_witness :
  document_title (Modified false (Modified true
      {| title := "  Org   chart "; SaveButton := Some true |})) = "Org chart" /\
  exists before rest,
    "My * title" = before +:+ "*" +:+ rest /\
    (indexOf "*"%char before < 0)%Z /\
    title (Modified false {| title := "My * title"; SaveButton := None |}) = before /\
    document_title (Modified false {| title := "My * title"; SaveButton := None |})
      = strip_and_collapse before.
Proof.
  split.
  - apply (proj1 (Modified_round_trip
                    {| title := "  Org   chart "; SaveButton := Some true |})).
    vm_compute. reflexivity.
  - apply (proj2 (Modified_round_trip
                    {| title := "My * title"; SaveButton := None |})).
    vm_compute. discriminate.
Defined.

(* ===================================================================== *)
(** * Pictures and unique keys *)
(* ===================================================================== *)

Import Wrapper.

(** X17.  [findHeadShot] gives the placeholder picture exactly for the
    keys below 0 or above 16, and gives different pictures for
    different keys from 0 to 16 (key 0 included). *)
Theorem findHeadShot_pictures (a b : Z) :
  (findHeadShot a = "images/HSnopic.jpg" <-> (a < 0 \/ 16 < a)%Z) /\
  ((0 <= a <= 16)%Z -> (0 <= b <= 16)%Z ->
   findHeadShot a = findHeadShot b -> a = b).
Proof.
  split.
  - split.
    + intros Hp. destruct (decide (a < 0 \/ 16 < a)%Z) as [|Hin]; [done|].
      exfalso.
      assert (a = 0 \/ a = 1 \/ a = 2 \/ a = 3 \/ a = 4 \/ a = 5 \/ a = 6 \/
              a = 7 \/ a = 8 \/ a = 9 \/ a = 10 \/ a = 11 \/ a = 12 \/
              a = 13 \/ a = 14 \/ a = 15 \/ a = 16)%Z as H by lia.
      repeat (destruct H as [->|H]; [by vm_compute in Hp|]).
      subst. by vm_compute in Hp.
    + intros Hout. unfold findHeadShot. rewrite decide_True; [done|lia].
  - intros Ha Hb.
    assert (a = 0 \/ a = 1 \/ a = 2 \/ a = 3 \/ a = 4 \/ a = 5 \/ a = 6 \/
            a = 7 \/ a = 8 \/ a = 9 \/ a = 10 \/ a = 11 \/ a = 12 \/
            a = 13 \/ a = 14 \/ a = 15 \/ a = 16)%Z as HA by lia.
    assert (b = 0 \/ b = 1 \/ b = 2 \/ b = 3 \/ b = 4 \/ b = 5 \/ b = 6 \/
            b = 7 \/ b = 8 \/ b = 9 \/ b = 10 \/ b = 11 \/ b = 12 \/
            b = 13 \/ b = 14 \/ b = 15 \/ b = 16)%Z as HB by lia.
    clear Ha Hb. intros Heq.
    repeat (destruct HA as [->|HA]);
      repeat (destruct HB as [->|HB]);
      subst; first [reflexivity | by vm_compute in Heq].
Qed.

Lemma findHeadShot_pictures_witness :
  (findHeadShot 0 = "images/HSnopic.jpg" <-> (0 < 0 \/ 16 < 0)%Z) /\
  ((0 <= 0 <= 16)%Z -> (0 <= 16 <= 16)%Z ->
   findHeadShot 0 = findHeadShot 16 -> 0%Z = 16%Z).
Proof. apply (findHeadShot_pictures 0 16). Defined.

Section unique_keys.
Implicit Types (arr : list ObjectData) (d : ObjectData) (k : value)
  (z step : Z) (fuel : nat).

Lemma find_key_Some arr k d :
  find_key arr k = Some d -> d ∈ arr /\ get_prop d "key" = k.
Proof.
  unfold find_key. case_decide; [done|]. intros Hf.
  apply find_some in Hf as [Hin Hk].
  split; [by apply list_elem_of_In|]. by apply bool_decide_eq_true in Hk.
Qed.

Lemma find_key_None arr k d :
  find_key arr k = None -> k <> VUndefined -> d ∈ arr -> get_prop d "key" <> k.
Proof.
  unfold find_key. case_decide; [done|]. intros Hf _ Hin Hk.
  apply list_elem_of_In in Hin.
  pose proof (find_none _ _ Hf d Hin) as Hd. simpl in Hd.
  by rewrite bool_decide_eq_true_2 in Hd.
Qed.

Lemma count_beyond_le step z arr : count_beyond step z arr <= length arr.
Proof. apply length_filter. Qed.

Lemma count_beyond_step step z arr d :
  step = 1%Z \/ step = (-1)%Z ->
  d ∈ arr -> get_prop d "key" = VNum z ->
  count_beyond step (z + step) arr < count_beyond step z arr.
Proof.
  intros Hstep Hin Hk. unfold count_beyond.
  assert (forall x, Is_true (key_beyond step (z + step) x) ->
                    Is_true (key_beyond step z x)) as Hmono.
  { intros x. unfold key_beyond. destruct (get_prop x "key"); try done.
    rewrite !Is_true_true, !Z.leb_le. destruct Hstep as [-> | ->]; lia. }
  induction arr as [|x arr IH]; [by apply elem_of_nil in Hin|].
  rewrite !filter_cons. apply elem_of_cons in Hin as [<-|Hin].
  - rewrite decide_False, decide_True.
    + simpl. apply Nat.lt_succ_r.
      clear IH. induction arr as [|y arr IH]; [done|].
      rewrite !filter_cons. destruct (decide (Is_true (key_beyond step (z + step) y))) as [Hy|Hy].
      * rewrite decide_True by auto. simpl. lia.
      * case_decide; simpl; lia.
    + unfold key_beyond. rewrite Hk. apply Is_true_true, Z.leb_le.
      destruct Hstep as [-> | ->]; lia.
    + unfold key_beyond. rewrite Hk. rewrite Is_true_true, Z.leb_le.
      destruct Hstep as [-> | ->]; lia.
  - specialize (IH Hin).
    destruct (decide (Is_true (key_beyond step (z + step) x))) as [Hx|Hx].
    + rewrite decide_True by auto. simpl. lia.
    + case_decide; simpl; lia.
Qed.

(** With enough rounds the loop ends, at the first key in its way that
    no data object has, after no more rounds than there are data objects
    ahead of its starting point. *)
Lemma probe_spec step arr fuel z :
  step = 1%Z \/ step = (-1)%Z ->
  count_beyond step z arr <= fuel ->
  exists n : nat,
    probe step arr fuel (VNum z) = Some (VNum (z + step * Z.of_nat n)) /\
    find_key arr (VNum (z + step * Z.of_nat n)) = None /\
    (forall j : nat, j < n -> find_key arr (VNum (z + step * Z.of_nat j)) <> None) /\
    n <= count_beyond step z arr.
Proof.
  intros Hstep. revert z. induction fuel as [|fuel IH]; intros z Hcount.
  - destruct (find_key arr (VNum z)) as [d|] eqn:Hf.
    + destruct (find_key_Some _ _ _ Hf) as [Hin Hk].
      pose proof (count_beyond_step step z arr d Hstep Hin Hk). lia.
    + exists 0. simpl. rewrite Hf. rewrite Z.mul_0_r, Z.add_0_r.
      split; [done|]. split; [done|]. split; [|lia]. intros j Hj. lia.
  - simpl. destruct (find_key arr (VNum z)) as [d|] eqn:Hf.
    + destruct (find_key_Some _ _ _ Hf) as [Hin Hk].
      pose proof (count_beyond_step step z arr d Hstep Hin Hk) as Hlt.
      destruct (IH (z + step)%Z) as (n & Hrun & Hfree & Htaken & Hn); [lia|].
      exists (S n).
      replace (z + step * Z.of_nat (S n))%Z
        with (z + step + step * Z.of_nat n)%Z by lia.
      split; [done|]. split; [done|]. split; [|lia].
      intros [|j] Hj.
      * rewrite Z.mul_0_r, Z.add_0_r. by rewrite Hf.
      * replace (z + step * Z.of_nat (S j))%Z
          with (z + step + step * Z.of_nat j)%Z by lia.
        apply Htaken. lia.
    + exists 0. rewrite Z.mul_0_r, Z.add_0_r.
      split; [done|]. split; [done|]. split; [|lia]. intros j Hj. lia.
Qed.

Lemma first_try_or_else d dflt z0 :
  dflt <> 0%Z ->
  first_try d dflt = Some z0 ->
  or_else (get_prop d "key") (VNum dflt) = VNum z0.
Proof.
  unfold first_try, or_else. intros Hd.
  destruct (get_prop d "key") as [|[]|z|[|a s]]; simpl; try done.
  - by intros [= <-].
  - by intros [= <-].
  - destruct (Z.eqb_spec z 0); simpl; by intros [= <-].
  - by intros [= <-].
Qed.

End unique_keys.

(** X18.  For node data whose key is a number or counts as false, and
    a starting point ([data.key], or 1 when that counts as false) from
    which as many steps upwards as the model has node data stay within
    the integers that numbers hold exactly, [makeUniqueKeyFunction]
    terminates, stores the key it returns in the data, and that key is
    the first number from the starting point upwards that no node data
    of the model has: it is unused, and every number between the
    starting point and it is in use.  The key is at most as many steps
    above the starting point as the model has node data, so every key
    the loop tried is held exactly.  When the starting point is
    positive, so is the key. *)
Theorem makeUniqueKeyFunction_first_free (m : Model) (data : ObjectData) (z0 : Z) :
  first_try data 1 = Some z0 ->
  (- max_exact <= z0)%Z ->
  (z0 + Z.of_nat (length (nodeDataArray m)) <= max_exact)%Z ->
  exists z,
    makeUniqueKeyFunction m data = Some (VNum z, set_prop data "key" (VNum z)) /\
    (z0 <= z <= z0 + Z.of_nat (length (nodeDataArray m)))%Z /\
    (- max_exact <= z <= max_exact)%Z /\
    findNodeDataForKey m (VNum z) = None /\
    (forall j, (z0 <= j < z)%Z -> findNodeDataForKey m (VNum j) <> None) /\
    ((0 < z0)%Z -> (0 < z)%Z).
Proof.
  intros Hfirst Hlow Hhigh. unfold makeUniqueKeyFunction, findNodeDataForKey.
  rewrite (first_try_or_else data 1 z0) by done.
  destruct (probe_spec 1 (nodeDataArray m) (length (nodeDataArray m)) z0)
    as (n & Hrun & Hfree & Htaken & Hn); [by left|apply count_beyond_le|].
  pose proof (count_beyond_le 1 z0 (nodeDataArray m)) as Hle.
  exists (z0 + 1 * Z.of_nat n)%Z. rewrite Hrun. simpl.
  split; [done|]. split; [lia|]. split; [lia|]. split; [done|]. split; [|lia].
  intros j Hj.
  replace j with (z0 + 1 * Z.of_nat (Z.to_nat (j - z0)))%Z by lia.
  apply Htaken. lia.
Qed.

Lemma makeUniqueKeyFunction_first_free_witness :
  exists z,
    makeUniqueKeyFunction small_model (object [("name", VStr "(new person)")]) =
      Some (VNum z, set_prop (object [("name", VStr "(new person)")]) "key" (VNum z)) /\
    (1 <= z <= 1 + Z.of_nat (length (nodeDataArray small_model)))%Z /\
    (- max_exact <= z <= max_exact)%Z /\
    findNodeDataForKey small_model (VNum z) = None /\
    (forall j, (1 <= j < z)%Z -> findNodeDataForKey small_model (VNum j) <> None) /\
    ((0 < 1)%Z -> (0 < z)%Z).
Proof.
  apply (makeUniqueKeyFunction_first_free small_model
           (object [("name", VStr "(new person)")]) 1).
  - reflexivity.
  - unfold max_exact. lia.
  - unfold max_exact. simpl. lia.
Defined.

(** X19.  For link data whose key is a number or counts as false, and
    a starting point ([data.key], or -1 when that counts as false) from
    which as many steps downwards as the model has link data stay
    within the integers that numbers hold exactly,
    [makeUniqueLinkKeyFunction] terminates, stores the key it returns in
    the data, and that key is the first number from the starting point
    downwards that no link data of the model has.  The key is at most
    as many steps below the starting point as the model has link data,
    so every key the loop tried is held exactly.  When the starting
    point is negative, so is the key. *)
Theorem makeUniqueLinkKeyFunction_first_free (m : Model) (data : ObjectData) (z0 : Z) :
  first_try data (-1) = Some z0 ->
  (z0 <= max_exact)%Z ->
  (- max_exact <= z0 - Z.of_nat (length (linkDataArray m)))%Z ->
  exists z,
    makeUniqueLinkKeyFunction m data = Some (VNum z, set_prop data "key" (VNum z)) /\
    (z0 - Z.of_nat (length (linkDataArray m)) <= z <= z0)%Z /\
    (- max_exact <= z <= max_exact)%Z /\
    findLinkDataForKey m (VNum z) = None /\
    (forall j, (z < j <= z0)%Z -> findLinkDataForKey m (VNum j) <> None) /\
    ((z0 < 0)%Z -> (z < 0)%Z).
Proof.
  intros Hfirst Hhigh Hlow. unfold makeUniqueLinkKeyFunction, findLinkDataForKey.
  rewrite (first_try_or_else data (-1) z0) by done.
  destruct (probe_spec (-1) (linkDataArray m) (length (linkDataArray m)) z0)
    as (n & Hrun & Hfree & Htaken & Hn); [by right|apply count_beyond_le|].
  pose proof (count_beyond_le (-1) z0 (linkDataArray m)) as Hle.
  exists (z0 + -1 * Z.of_nat n)%Z. rewrite Hrun. simpl.
  split; [done|]. split; [lia|]. split; [lia|]. split; [done|]. split; [|lia].
  intros j Hj.
  replace j with (z0 + -1 * Z.of_nat (Z.to_nat (z0 - j)))%Z by lia.
  apply Htaken. lia.
Qed.

Lemma makeUniqueLinkKeyFunction_first_free_witness :
  exists z,
    makeUniqueLinkKeyFunction small_model (object [("from", VNum 2); ("to", VNum 4)]) =
      Some (VNum z, set_prop (object [("from", VNum 2); ("to", VNum 4)]) "key" (VNum z)) /\
    (-1 - Z.of_nat (length (linkDataArray small_model)) <= z <= -1)%Z /\
    (- max_exact <= z <= max_exact)%Z /\
    findLinkDataForKey small_model (VNum z) = None /\
    (forall j, (z < j <= -1)%Z -> findLinkDataForKey small_model (VNum j) <> None) /\
    ((-1 < 0)%Z -> (z < 0)%Z).
Proof.
  apply (makeUniqueLinkKeyFunction_first_free small_model
           (object [("from", VNum 2); ("to", VNum 4)]) (-1)).
  - reflexivity.
  - unfold max_exact. lia.
  - unfold max_exact. simpl. lia.
Defined.

(* ===================================================================== *)
(** * Adding an employee *)
(* ===================================================================== *)

(** X20.  A double click on a node adds exactly one node data to the
    model, at the end: a person named ["(new person)"] with empty text
    and comments, whose [parent] is the key of the clicked node and
    whose key is the first number from 1 upwards that no node data had.
    The link data are untouched, the ["add employee"] transaction is
    committed, and when the keys of the node data were distinct before,
    they still are. *)
Theorem nodeDoubleClick_adds_employee (thisemp : ObjectData) (d : Diagram) :
  exists (z : Z) (d' : Diagram),
    nodeDoubleClick (Some thisemp) d = Some d' /\
    nodeDataArray (model d') =
      nodeDataArray (model d) ++
      [set_prop (object [("name", VStr "(new person)"); ("text", VStr "");
                         ("comments", VStr "");
                         ("parent", get_prop thisemp "key")])
         "key" (VNum z)] /\
    (1 <= z)%Z /\
    findNodeDataForKey (model d) (VNum z) = None /\
    (forall j, (1 <= j < z)%Z -> findNodeDataForKey (model d) (VNum j) <> None) /\
    linkDataArray (model d') = linkDataArray (model d) /\
    openTransactions d' = openTransactions d /\
    committed d' = committed d ++ ["add employee"] /\
    (NoDup (node_keys (model d)) -> NoDup (node_keys (model d'))).
Proof.
  set (newemp := object [("name", VStr "(new person)"); ("text", VStr "");
                         ("comments", VStr "");
                         ("parent", get_prop thisemp "key")]).
  assert (get_prop newemp "key" = VUndefined) as Hnokey by reflexivity.
  destruct (probe_spec 1 (nodeDataArray (model d))
              (length (nodeDataArray (model d))) 1)
    as (n & Hrun & Hfree & Htaken & _); [by left|apply count_beyond_le|].
  exists (1 + 1 * Z.of_nat n)%Z. eexists.
  split.
  { unfold nodeDoubleClick, addNodeData. fold newemp. rewrite Hnokey.
    rewrite decide_True by (by left).
    unfold makeUniqueKeyFunction. rewrite Hnokey.
    change (or_else VUndefined (VNum 1)) with (VNum 1).
    change (nodeDataArray (model (startTransaction "add employee" d)))
      with (nodeDataArray (model d)).
    rewrite Hrun. reflexivity. }
  simpl. split; [done|]. split; [lia|]. split; [done|].
  split.
  { intros j Hj.
    replace j with (1 + 1 * Z.of_nat (Z.to_nat (j - 1)))%Z by lia.
    apply Htaken. lia. }
  split; [done|]. split; [done|]. split; [done|].
  intros Hnd. unfold node_keys. simpl. rewrite fmap_app. simpl.
  apply NoDup_app. split; [done|]. split; [|apply NoDup_singleton].
  intros k Hk Hin. apply list_elem_of_singleton in Hin.
  rewrite set_prop_same in Hin. subst k.
  apply list_elem_of_fmap in Hk as (d0 & Hk0 & Hd0).
  by apply (find_key_None _ _ d0 Hfree).
Qed.

Lemma nodeDoubleClick_adds_employee_witness :
  exists (z : Z) (d' : Diagram),
    nodeDoubleClick (Some (object [("key", VNum 2)])) small_diagram = Some d' /\
    nodeDataArray (model d') =
      nodeDataArray (model small_diagram) ++
      [set_prop (object [("name", VStr "(new person)"); ("text", VStr "");
                         ("comments", VStr "");
                         ("parent", get_prop (object [("key", VNum 2)]) "key")])
         "key" (VNum z)] /\
    (1 <= z)%Z /\
    findNodeDataForKey (model small_diagram) (VNum z) = None /\
    (forall j, (1 <= j < z)%Z ->
       findNodeDataForKey (model small_diagram) (VNum j) <> None) /\
    linkDataArray (model d') = linkDataArray (model small_diagram) /\
    openTransactions d' = openTransactions small_diagram /\
    committed d' = committed small_diagram ++ ["add employee"] /\
    (NoDup (node_keys (model small_diagram)) -> NoDup (node_keys (model d'))).
Proof.
  apply (nodeDoubleClick_adds_employee (object [("key", VNum 2)]) small_diagram).
Defined.

(* ===================================================================== *)
(** * The reporting tree *)
(* ===================================================================== *)

Section reporting_tree.
Implicit Types (links : list Link) (l : Link) (n s node target : nat).

Lemma findTreeParentLink_cons l links n :
  findTreeParentLink (l :: links) n =
  if decide (toNode l = n) then Some (0, l)
  else prod_map S id <$> findTreeParentLink links n.
Proof. reflexivity. Qed.

Lemma findTreeParentNode_cons l links n :
  findTreeParentNode (l :: links) n =
  if decide (toNode l = n) then Some (fromNode l)
  else findTreeParentNode links n.
Proof.
  unfold findTreeParentNode. rewrite findTreeParentLink_cons.
  case_decide; [done|].
  by destruct (findTreeParentLink links n) as [[i l']|].
Qed.

Lemma findTreeParentNode_nil n : findTreeParentNode [] n = None.
Proof. reflexivity. Qed.

(** After the drop the dragged node reports to the target, and every
    other node to whom it did. *)
Lemma findTreeParentNode_set_boss links s node n :
  findTreeParentNode (set_boss links s node) n =
  if decide (n = s) then Some node else findTreeParentNode links n.
Proof.
  unfold set_boss. induction links as [|l links IH].
  - simpl. rewrite findTreeParentNode_cons. simpl.
    case_decide; case_decide; congruence.
  - rewrite findTreeParentLink_cons.
    destruct (decide (toNode l = s)) as [Hl|Hl].
    + simpl. rewrite !findTreeParentNode_cons. simpl.
      repeat case_decide; congruence.
    + destruct (findTreeParentLink links s) as [[i l']|]; simpl in *.
      * rewrite !findTreeParentNode_cons.
        destruct (decide (toNode l = n)); [|done].
        case_decide; congruence.
      * rewrite !findTreeParentNode_cons.
        destruct (decide (toNode l = n)); [|done].
        case_decide; congruence.
Qed.

Lemma toNode_set_boss links s node :
  toNode <$> set_boss links s node =
  (toNode <$> links) ++ (if decide (s ∈ toNode <$> links) then [] else [s]).
Proof.
  unfold set_boss. induction links as [|l links IH].
  - reflexivity.
  - rewrite findTreeParentLink_cons.
    destruct (decide (toNode l = s)) as [Hl|Hl].
    + csimpl.
      rewrite decide_True by (rewrite Hl; apply list_elem_of_here).
      by rewrite app_nil_r.
    + destruct (findTreeParentLink links s) as [[i l']|]; csimpl in *.
      * rewrite IH. f_equal.
        destruct (decide (s ∈ toNode <$> links)) as [Hin|Hin].
        -- rewrite decide_True; [done|]. by apply list_elem_of_further.
        -- rewrite decide_False; [done|].
           intros [?|?]%elem_of_cons; congruence.
      * rewrite IH. f_equal.
        destruct (decide (s ∈ toNode <$> links)) as [Hin|Hin].
        -- rewrite decide_True; [done|]. by apply list_elem_of_further.
        -- rewrite decide_False; [done|].
           intros [?|?]%elem_of_cons; congruence.
Qed.

Lemma tc_boss_of_subrel links1 links2 a b :
  (forall x y, boss_of links1 x y -> boss_of links2 x y) ->
  tc (boss_of links1) a b -> tc (boss_of links2) a b.
Proof.
  intros Hsub. induction 1 as [x y Hxy|x y z Hxy _ IH].
  - by apply tc_once, Hsub.
  - eapply tc_l; [by apply Hsub|done].
Qed.

Lemma climbs_sound links fuel n target :
  climbs links fuel n target = true -> tc (boss_of links) n target.
Proof.
  revert n. induction fuel as [|fuel IH]; intros n; simpl; [done|].
  destruct (findTreeParentNode links n) as [q|] eqn:Hq; [|done].
  case_decide as Ht.
  - intros _. apply tc_once. unfold boss_of. by rewrite Hq, Ht.
  - intros Hc. eapply tc_l; [exact Hq|by apply IH].
Qed.

Lemma climbs_mono links1 links2 fuel n target :
  (forall x y, boss_of links1 x y -> boss_of links2 x y) ->
  climbs links1 fuel n target = true -> climbs links2 fuel n target = true.
Proof.
  intros Hsub. revert n. induction fuel as [|fuel IH]; intros n; simpl; [done|].
  destruct (findTreeParentNode links1 n) as [q|] eqn:Hq; [|done].
  rewrite (Hsub n q Hq). case_decide; [done|]. apply IH.
Qed.

(** The links that do not come into the node [a]. *)
Lemma findTreeParentNode_without links a n :
  findTreeParentNode (filter (fun l => toNode l <> a) links) n =
  if decide (n = a) then None else findTreeParentNode links n.
Proof.
  induction links as [|l links IH].
  - by case_decide.
  - rewrite filter_cons. destruct (decide (toNode l <> a)) as [Hl|Hl].
    + rewrite !findTreeParentNode_cons.
      destruct (decide (toNode l = n)); [|done]. case_decide; congruence.
    + apply dec_stable in Hl. rewrite findTreeParentNode_cons, IH.
      repeat case_decide; congruence.
Qed.

Lemma length_without links a b :
  boss_of links a b ->
  length (filter (fun l => toNode l <> a) links) < length links.
Proof.
  unfold boss_of. induction links as [|l links IH]; [done|].
  rewrite findTreeParentNode_cons, filter_cons.
  destruct (decide (toNode l = a)) as [Hl|Hl].
  - intros _. rewrite decide_False by tauto. simpl.
    pose proof (length_filter (fun l => toNode l <> a) links). lia.
  - intros Hb. rewrite decide_True by done. simpl. specialize (IH Hb). lia.
Qed.

(** In a tree, going up as many times as there are links meets every
    node that is above. *)
Lemma climbs_complete fuel links n target :
  acyclic links -> length links <= fuel ->
  tc (boss_of links) n target -> climbs links fuel n target = true.
Proof.
  revert links n. induction fuel as [|fuel IH]; intros links n Hac Hlen Htc.
  - assert (exists q, boss_of links n q) as [q Hq] by (inv Htc; eauto).
    pose proof (length_without links n q Hq). lia.
  - assert (exists q, boss_of links n q /\ (q = target \/ tc (boss_of links) q target))
      as (q & Hq & Hrest).
    { inv Htc; eauto. }
    simpl. rewrite Hq. case_decide as Ht; [done|].
    destruct Hrest as [?|Hrest]; [done|].
    set (links2 := filter (fun l => toNode l <> n) links).
    assert (forall x y, boss_of links2 x y -> boss_of links x y) as Hsub.
    { intros x y. unfold boss_of, links2. rewrite findTreeParentNode_without.
      by case_decide. }
    apply (climbs_mono links2); [done|]. apply IH.
    + intros x Hx. apply (Hac x). by apply (tc_boss_of_subrel links2).
    + pose proof (length_without links n q Hq). unfold links2. lia.
    + assert (forall x y, rtc (boss_of links) q x -> tc (boss_of links) x y ->
                          tc (boss_of links2) x y) as Havoid.
      { intros x y Hqx Hxy. revert Hqx.
        induction Hxy as [x y Hxy|x y z Hxy _ IHtc]; intros Hqx.
        - apply tc_once. unfold boss_of, links2.
          rewrite findTreeParentNode_without. rewrite decide_False; [done|].
          intros ->. apply (Hac n).
          apply (tc_rtc_r n q n); [by apply tc_once|done].
        - eapply tc_l.
          + unfold boss_of, links2.
            rewrite findTreeParentNode_without. rewrite decide_False; [done|].
            intros ->. apply (Hac n).
          apply (tc_rtc_r n q n); [by apply tc_once|done].
          + apply IHtc. by eapply rtc_r. }
      by apply Havoid.
Qed.

(** Any way up in the chart after the drop is a way up in the chart
    before it, or leads through the dragged node. *)
Lemma tc_set_boss links s node a b :
  tc (boss_of (set_boss links s node)) a b ->
  tc (boss_of links) a b \/
  (rtc (boss_of links) a s /\ rtc (boss_of (set_boss links s node)) node b).
Proof.
  induction 1 as [x y Hxy|x y z Hxy Hyz IH].
  - unfold boss_of in Hxy. rewrite findTreeParentNode_set_boss in Hxy.
    case_decide as Hx.
    + injection Hxy as <-. subst x. by right.
    + left. by apply tc_once.
  - unfold boss_of in Hxy. rewrite findTreeParentNode_set_boss in Hxy.
    case_decide as Hx.
    + injection Hxy as <-. subst x. right. split; [done|by apply tc_rtc].
    + destruct IH as [IH|[IH1 IH2]].
      * left. by eapply tc_l.
      * right. split; [by eapply rtc_l|done].
Qed.

Lemma acyclic_set_boss links s node :
  acyclic links -> mayWorkFor links (Some (NodePart s)) node = true ->
  acyclic (set_boss links s node).
Proof.
  intros Hac Hmay. unfold mayWorkFor in Hmay.
  case_decide as Hne; [done|].
  destruct (isInTreeOf links node s) eqn:Hin; [done|]. clear Hmay.
  assert (~ rtc (boss_of links) node s) as Hnot.
  { intros [->|Htc]%rtc_tc; [done|].
    unfold isInTreeOf in Hin. by rewrite climbs_complete in Hin. }
  intros a Hcycle.
  destruct (tc_set_boss _ _ _ _ _ Hcycle) as [Hold|[Has Hna]].
  - by apply (Hac a).
  - apply rtc_tc in Hna as [->|Hna]; [done|].
    destruct (tc_set_boss _ _ _ _ _ Hna) as [Hold|[Hns _]].
    + apply Hnot. etrans; [by apply tc_rtc|done].
    + done.
Qed.

End reporting_tree.


Lemma acyclic_nil : acyclic [].
Proof. intros n Hn. inv Hn; discriminate. Qed.

Lemma small_chart_acyclic : acyclic small_chart.
Proof.
  change small_chart with (set_boss (set_boss [] 1 0) 2 0).
  apply acyclic_set_boss; [|reflexivity].
  apply acyclic_set_boss; [|reflexivity].
  apply acyclic_nil.
Qed.

(** X21.  In a chart without cycles, [mayWorkFor(node1, node2)] holds
    exactly when [node1] is a node other than [node2] and is not above
    [node2] in the chart. *)
Theorem mayWorkFor_iff (links : list Link) (node1 : option Part) (node2 : nat) :
  acyclic links ->
  mayWorkFor links node1 node2 = true <->
  exists n1, node1 = Some (NodePart n1) /\ n1 <> node2 /\
             ~ tc (boss_of links) node2 n1.
Proof.
  intros Hac. unfold mayWorkFor. split.
  - destruct node1 as [[n1| |]|]; try done.
    case_decide as Hne; [done|].
    destruct (isInTreeOf links node2 n1) eqn:Hin; [done|]. intros _.
    exists n1. split; [done|]. split; [done|]. intros Htc.
    unfold isInTreeOf in Hin. by rewrite climbs_complete in Hin.
  - intros (n1 & -> & Hne & Hnot).
    rewrite decide_False by done.
    destruct (isInTreeOf links node2 n1) eqn:Hin; [|done].
    destruct Hnot. by eapply climbs_sound.
Qed.

Lemma mayWorkFor_iff_witness :
  mayWorkFor small_chart (Some (NodePart 2)) 1 = true <->
  exists n1, Some (NodePart 2) = Some (NodePart n1) /\ n1 <> 1 /\
             ~ tc (boss_of small_chart) 1 n1.
Proof.
  apply (mayWorkFor_iff small_chart (Some (NodePart 2)) 1).
  exact small_chart_acyclic.
Defined.

(** X22.  A drop never makes a cycle: when no node of the chart is above
    itself before [mouseDrop], none is after it; and when no node had
    two links coming into it, none has after it. *)
Theorem mouseDrop_keeps_tree (links : list Link) (selnode : option Part) (node : nat) :
  acyclic links ->
  acyclic (mouseDrop links selnode node) /\
  (NoDup (toNode <$> links) -> NoDup (toNode <$> mouseDrop links selnode node)).
Proof.
  intros Hac. unfold mouseDrop.
  destruct (mayWorkFor links selnode node) eqn:Hmay; [|done].
  destruct selnode as [[s| |]|]; try done.
  split; [by apply acyclic_set_boss|].
  intros Hnd. rewrite toNode_set_boss. case_decide as Hin.
  - by rewrite app_nil_r.
  - apply NoDup_app. split; [done|]. split; [|apply NoDup_singleton].
    intros x Hx ->%list_elem_of_singleton. done.
Qed.

Lemma mouseDrop_keeps_tree_witness :
  acyclic (mouseDrop small_chart (Some (NodePart 2)) 1) /\
  (NoDup (toNode <$> small_chart) ->
   NoDup (toNode <$> mouseDrop small_chart (Some (NodePart 2)) 1)).
Proof.
  apply (mouseDrop_keeps_tree small_chart (Some (NodePart 2)) 1).
  exact small_chart_acyclic.
Defined.

(** X23.  When [mayWorkFor] accepts the drop, the dragged node reports
    to the node it was dropped on afterwards, every other node reports
    to whom it did, and at most one link is added; when it does not,
    the links are left as they are. *)
Theorem mouseDrop_reports (links : list Link) (selnode : option Part) (node : nat) :
  (forall s, selnode = Some (NodePart s) ->
     mayWorkFor links selnode node = true ->
     findTreeParentNode (mouseDrop links selnode node) s = Some node /\
     (forall n, n <> s ->
        findTreeParentNode (mouseDrop links selnode node) n =
        findTreeParentNode links n) /\
     length (mouseDrop links selnode node) =
       length links + match findTreeParentLink links s with Some _ => 0 | None => 1 end) /\
  (mayWorkFor links selnode node = false -> mouseDrop links selnode node = links).
Proof.
  split.
  - intros s -> Hmay. unfold mouseDrop. rewrite Hmay.
    split; [|split].
    + rewrite findTreeParentNode_set_boss. by rewrite decide_True.
    + intros n Hn. rewrite findTreeParentNode_set_boss. by rewrite decide_False.
    + unfold set_boss. destruct (findTreeParentLink links s) as [[i l]|].
      * rewrite length_insert. lia.
      * rewrite length_app. simpl. lia.
  - intros Hmay. unfold mouseDrop. by rewrite Hmay.
Qed.

Lemma mouseDrop_reports_witness :
  (forall s, Some (NodePart 2) = Some (NodePart s) ->
     mayWorkFor small_chart (Some (NodePart 2)) 1 = true ->
     findTreeParentNode (mouseDrop small_chart (Some (NodePart 2)) 1) s = Some 1 /\
     (forall n, n <> s ->
        findTreeParentNode (mouseDrop small_chart (Some (NodePart 2)) 1) n =
        findTreeParentNode small_chart n) /\
     length (mouseDrop small_chart (Some (NodePart 2)) 1) =
       length small_chart + match findTreeParentLink small_chart s with Some _ => 0 | None => 1 end) /\
  (mayWorkFor small_chart (Some (NodePart 2)) 1 = false ->
   mouseDrop small_chart (Some (NodePart 2)) 1 = small_chart).
Proof. apply (mouseDrop_reports small_chart (Some (NodePart 2)) 1). Defined.

(** X24.  The shape of a node turns dark red on [mouseDragEnter] exactly
    when a drop on the node would be accepted, and then
    [mouseDragLeave] gives it back the fill it had (a fill that counts
    as true); when the drop would not be accepted, entering changes
    nothing. *)
Theorem drag_highlight
    (links : list Link) (selnode : option Part) (node : nat) (sh : Shape) :
  (mayWorkFor links selnode node = true ->
   (fill <$> mouseDragEnter links selnode node (Some sh)) = Some "darkred" /\
   (fill sh <> "" ->
    fill <$> mouseDragLeave (mouseDragEnter links selnode node (Some sh))
      = Some (fill sh))) /\
  (mayWorkFor links selnode node = false ->
   mouseDragEnter links selnode node (Some sh) = Some sh).
Proof.
  unfold mouseDragEnter. split; intros ->; simpl; [|done].
  split; [done|]. intros Hfill. by rewrite decide_False.
Qed.

Lemma drag_highlight_witness :
  (mayWorkFor small_chart (Some (NodePart 2)) 1 = true ->
   (fill <$> mouseDragEnter small_chart (Some (NodePart 2)) 1
               (Some {| fill := "#333333"; prevFill := None |})) = Some "darkred" /\
   ("#333333" <> "" ->
    fill <$> mouseDragLeave
               (mouseDragEnter small_chart (Some (NodePart 2)) 1
                  (Some {| fill := "#333333"; prevFill := None |}))
      = Some "#333333")) /\
  (mayWorkFor small_chart (Some (NodePart 2)) 1 = false ->
   mouseDragEnter small_chart (Some (NodePart 2)) 1
     (Some {| fill := "#333333"; prevFill := None |})
   = Some {| fill := "#333333"; prevFill := None |}).
Proof.
  apply (drag_highlight small_chart (Some (NodePart 2)) 1
           {| fill := "#333333"; prevFill := None |}).
Defined.
